(** * mbserver: dispatch and lifecycle of a Modbus server (slave)

    A shallow embedding of [server.go] and [servetcp.go].

    Go values are embedded as follows.
    - [uint8] and the elements of [[]byte] are [Byte.byte]; a slice is a
      list, the nil slice being the empty list.
    - A function value stored in the server (a function handler, an event
      hook) is a name; the body behind a handler name is looked up in an
      environment, the call of a hook is an event of the trace.
    - A pointer to an [Exception] is an [ExceptionRef]; the comparison
      [exception != &Success] is identity of references.
    - What a goroutine does to the outside world (connections, listeners,
      ports, the log, other goroutines) is a list of [Event]s, oldest
      first; what the outside world gives back (the result of a read, of an
      accept, of [net.Listen]) is an argument.
    - A frame is a value of a type [F] carrying the methods of the [Framer]
      interface; the in-place setters return the updated frame.
    - Event hooks are taken to observe only: calling one writes neither to
      the server nor to the frame it is given. *)

From Stdlib Require Import List NArith Bool Lia.
From Stdlib Require Import Strings.String Strings.Ascii Strings.Byte.
Import ListNotations.
Open Scope list_scope.

(* ================================================================== *)
(** ** Exceptions *)

(** Modelled from the spec: the type [Exception] is declared outside
    [server.go] and [servetcp.go].  The spec (section 3) gives a closed set of
    protocol codes with a distinguished success value: success, illegal
    function, illegal data address, illegal data value, slave/device failure
    and "similar protocol-defined codes" (kept here by their number). *)
Inductive Exception : Set :=
| Success
| IllegalFunction
| IllegalDataAddress
| IllegalDataValue
| SlaveDeviceFailure
| ProtocolCode (code : N).

(** A [*Exception].  The package holds one variable per code, and
    [AddrOf c] is the address of the variable that holds [c], so that
    [&Success] is [AddrOf Success] and [&IllegalFunction] is
    [AddrOf IllegalFunction].  [Allocated loc c] points to a cell created at
    run time at location [loc], whose content is [c].  No run-time cell is a
    package variable: the two constructors never meet. *)
Inductive ExceptionRef : Set :=
| NilRef
| AddrOf (c : Exception)
| Allocated (loc : N) (c : Exception).

Definition Exception_eqb (a b : Exception) : bool :=
  match a, b with
  | Success, Success => true
  | IllegalFunction, IllegalFunction => true
  | IllegalDataAddress, IllegalDataAddress => true
  | IllegalDataValue, IllegalDataValue => true
  | SlaveDeviceFailure, SlaveDeviceFailure => true
  | ProtocolCode m, ProtocolCode n => N.eqb m n
  | _, _ => false
  end.

(** Pointer comparison [p == q]: two references are equal when they name
    the same variable or the same run-time location. *)
Definition ref_eqb (p q : ExceptionRef) : bool :=
  match p, q with
  | NilRef, NilRef => true
  | AddrOf a, AddrOf b => Exception_eqb a b
  | Allocated l _, Allocated m _ => N.eqb l m
  | _, _ => false
  end.


(* ================================================================== *)
(** ** Frames *)

(** Modelled from the spec: the [Framer] interface is declared outside
    the two given files.  Its method set is the capability set of section 3:
    function code, payload (get and set), exception (set), header-preserving
    copy, serialisation.  The dispatcher calls [Copy], [GetFunction],
    [SetData], [SetException] and [Bytes]. *)
Class Framer (F : Type) : Type := {
  Bytes : F -> list byte;
  Copy : F -> F;
  GetData : F -> list byte;
  GetFunction : F -> byte;
  SetException : F -> ExceptionRef -> F;
  SetData : F -> list byte -> F
}.

(** What a frame carries: a payload, or an exception in its place
    (glossary: "a protocol-defined failure code returned in place of a
    successful payload"). *)
Inductive Carried : Type :=
| Payload (data : list byte)
| Failure (exception : ExceptionRef).

(** Modelled from the spec: the contract every frame implementation owes
    the dispatcher (sections 3 and 6).  [carried] is an observation for
    specifications only; the program never calls it.
    - setting the payload makes the frame carry that payload;
    - setting an exception makes the frame carry the exception and
      overrides any payload set before, which leaves no trace;
    - the payload that can be read back is the payload carried;
    - the copy keeps the function code. *)
Class FramerContract (F : Type) `{Framer F} : Type := {
  carried : F -> Carried;
  carried_SetData : forall f d, carried (SetData f d) = Payload d;
  carried_SetException : forall f e, carried (SetException f e) = Failure e;
  SetException_overrides :
    forall f d e, SetException (SetData f d) e = SetException f e;
  GetData_carried : forall f d, carried f = Payload d -> GetData f = d;
  GetFunction_Copy : forall f, GetFunction (Copy f) = GetFunction f
}.

(** The exception of a frame: the one it carries, and [&Success] when it
    carries a payload. *)
Definition frameException {F} `{FramerContract F} (f : F) : ExceptionRef :=
  match carried f with
  | Payload _ => AddrOf Success
  | Failure e => e
  end.

(** The payload set on a frame, if it carries one. *)
Definition framePayload {F} `{FramerContract F} (f : F) : option (list byte) :=
  match carried f with
  | Payload d => Some d
  | Failure _ => None
  end.

(* ================================================================== *)
(** ** The server *)

(** Handles of the operating system's objects. *)
Definition Listener := N.   (* net.Listener *)
Definition Port := N.       (* serial.Port *)
Definition Conn := N.       (* net.Conn, io.ReadWriteCloser *)

(** An event hook is a function value; only its identity matters here. *)
Definition Hook := N.

(** A function handler is a function value: the eight handlers the
    package installs by default, or one supplied by the user. *)
Inductive HandlerName : Set :=
| ReadCoils
| ReadDiscreteInputs
| ReadHoldingRegisters
| ReadInputRegisters
| WriteSingleCoil
| WriteHoldingRegister
| WriteMultipleCoils
| WriteHoldingRegisters
| UserHandler (id : N).

(** An unbuffered channel holds nothing; its state is whether it has been
    closed. *)
Record Chan : Set := { closed : bool }.

Definition make_chan : Chan := {| closed := false |}.

(** [type Server struct].  [portsWG] is the counter of the wait group;
    [function] is the array of 256 entries indexed by a [uint8], [None]
    being the nil entry. *)
Record Server : Type := {
  Debug : bool;
  listeners : list Listener;
  ports : list Port;
  portsWG : N;
  portsCloseChan : Chan;
  requestChan : Chan;
  function : byte -> option HandlerName;
  DiscreteInputs : list byte;
  Coils : list byte;
  HoldingRegisters : list N;
  InputRegisters : list N;
  ConnectionAcceptedEvent : list Hook;
  ConnectionClosedEvent : list Hook;
  RequestReceivedEvent : list Hook;
  ResponseSentEvent : list Hook;
  ServerStartedEvent : list Hook;
  ServerStoppedEvent : list Hook
}.

(** [type Request struct]. *)
Record Request (F : Type) : Type := {
  conn : Conn;
  frame : F
}.
Arguments conn {F} _.
Arguments frame {F} _.
Arguments Build_Request {F} _ _.

(** Go errors.  [io.EOF] is compared by identity; any other error is
    known by its text. *)
Inductive error : Set :=
| io_EOF
| ErrorString (msg : string).

(** [err.Error()]. *)
Definition Error (e : error) : string :=
  match e with
  | io_EOF => "EOF"
  | ErrorString msg => msg
  end.

Definition is_EOF (e : error) : bool :=
  match e with
  | io_EOF => true
  | ErrorString _ => false
  end.

(** Goroutines started with [go]. *)
Inductive Task : Set :=
| TaskHandler                      (* go s.handler() *)
| TaskAccept (listen : Listener)   (* go s.accept(listen) *)
| TaskConn (c : Conn).             (* go func(conn net.Conn) {...}(conn) *)

(** The two channels of the server. *)
Inductive ChanName : Set :=
| ThePortsCloseChan    (* s.portsCloseChan *)
| TheRequestChan.      (* s.requestChan *)

(** What the program does to the world. *)
Inductive Event (F : Type) : Type :=
| EvLog (format : string) (err : error)          (* log.Printf(format, err) *)
| EvGo (t : Task)                                (* go ... *)
| EvListenerClose (listen : Listener)            (* listen.Close() *)
| EvPortClose (p : Port)                         (* port.Close() *)
| EvConnClose (c : Conn)                         (* conn.Close() *)
| EvConnWrite (c : Conn) (bytes : list byte)     (* conn.Write(bytes) *)
| EvSend (r : Request F)                         (* s.requestChan <- request *)
| EvChanClose (ch : ChanName)                    (* close(ch) *)
| EvWait                                         (* s.portsWG.Wait() returned *)
| EvConnHook (h : Hook) (c : Conn)               (* handler(conn) *)
| EvFrameHook (h : Hook) (c : Conn) (f : F)      (* handle(conn, frame) *)
| EvListenerHook (h : Hook) (listen : Listener). (* handle(listen) *)
Arguments EvLog {F} _ _.
Arguments EvGo {F} _.
Arguments EvListenerClose {F} _.
Arguments EvPortClose {F} _.
Arguments EvConnClose {F} _.
Arguments EvConnWrite {F} _ _.
Arguments EvSend {F} _.
Arguments EvChanClose {F} _.
Arguments EvWait {F}.
Arguments EvConnHook {F} _ _.
Arguments EvFrameHook {F} _ _ _.
Arguments EvListenerHook {F} _ _.

(** The line feed that ends the log formats. *)
Definition LF : string := String (ascii_of_nat 10) EmptyString.

(** [s.function[funcCode] = function]. *)
Definition set_function (s : Server) (funcCode : byte)
    (fn : option HandlerName) : Server :=
  {| Debug := Debug s;
     listeners := listeners s;
     ports := ports s;
     portsWG := portsWG s;
     portsCloseChan := portsCloseChan s;
     requestChan := requestChan s;
     function := fun c => if Byte.eqb c funcCode then fn else function s c;
     DiscreteInputs := DiscreteInputs s;
     Coils := Coils s;
     HoldingRegisters := HoldingRegisters s;
     InputRegisters := InputRegisters s;
     ConnectionAcceptedEvent := ConnectionAcceptedEvent s;
     ConnectionClosedEvent := ConnectionClosedEvent s;
     RequestReceivedEvent := RequestReceivedEvent s;
     ResponseSentEvent := ResponseSentEvent s;
     ServerStartedEvent := ServerStartedEvent s;
     ServerStoppedEvent := ServerStoppedEvent s |}.

(** [func (s *Server) RegisterFunctionHandler]. *)
Definition RegisterFunctionHandler (s : Server) (funcCode : byte)
    (fn : option HandlerName) : Server :=
  set_function s funcCode fn.

(** [func NewServer() *Server]: the memory maps, the default functions,
    the two channels, and the dispatcher goroutine. *)
Definition NewServer {F : Type} : Server * list (Event F) :=
  let s :=
    {| Debug := false;
       listeners := [];
       ports := [];
       portsWG := 0%N;
       portsCloseChan := make_chan;
       requestChan := make_chan;
       function := fun _ => None;
       DiscreteInputs := repeat x00 (N.to_nat 65536);
       Coils := repeat x00 (N.to_nat 65536);
       HoldingRegisters := repeat 0%N (N.to_nat 65536);
       InputRegisters := repeat 0%N (N.to_nat 65536);
       ConnectionAcceptedEvent := [];
       ConnectionClosedEvent := [];
       RequestReceivedEvent := [];
       ResponseSentEvent := [];
       ServerStartedEvent := [];
       ServerStoppedEvent := [] |} in
  let s := set_function s x01 (Some ReadCoils) in
  let s := set_function s x02 (Some ReadDiscreteInputs) in
  let s := set_function s x03 (Some ReadHoldingRegisters) in
  let s := set_function s x04 (Some ReadInputRegisters) in
  let s := set_function s x05 (Some WriteSingleCoil) in
  let s := set_function s x06 (Some WriteHoldingRegister) in
  let s := set_function s x0f (Some WriteMultipleCoils) in
  let s := set_function s x10 (Some WriteHoldingRegisters) in
  (s, [EvGo TaskHandler]).

(** [s.listeners = ls]. *)
Definition set_listeners (s : Server) (ls : list Listener) : Server :=
  {| Debug := Debug s;
     listeners := ls;
     ports := ports s;
     portsWG := portsWG s;
     portsCloseChan := portsCloseChan s;
     requestChan := requestChan s;
     function := function s;
     DiscreteInputs := DiscreteInputs s;
     Coils := Coils s;
     HoldingRegisters := HoldingRegisters s;
     InputRegisters := InputRegisters s;
     ConnectionAcceptedEvent := ConnectionAcceptedEvent s;
     ConnectionClosedEvent := ConnectionClosedEvent s;
     RequestReceivedEvent := RequestReceivedEvent s;
     ResponseSentEvent := ResponseSentEvent s;
     ServerStartedEvent := ServerStartedEvent s;
     ServerStoppedEvent := ServerStoppedEvent s |}.

(** The state of the stop signal and of the wait group, the two parts of
    the server that shutdown and the port workers write. *)
Definition set_ports_sync (s : Server) (ch : Chan) (wg : N) : Server :=
  {| Debug := Debug s;
     listeners := listeners s;
     ports := ports s;
     portsWG := wg;
     portsCloseChan := ch;
     requestChan := requestChan s;
     function := function s;
     DiscreteInputs := DiscreteInputs s;
     Coils := Coils s;
     HoldingRegisters := HoldingRegisters s;
     InputRegisters := InputRegisters s;
     ConnectionAcceptedEvent := ConnectionAcceptedEvent s;
     ConnectionClosedEvent := ConnectionClosedEvent s;
     RequestReceivedEvent := RequestReceivedEvent s;
     ResponseSentEvent := ResponseSentEvent s;
     ServerStartedEvent := ServerStartedEvent s;
     ServerStoppedEvent := ServerStoppedEvent s |}.

(** [strings.Contains(s, substr)]. *)
Fixpoint Contains (s substr : string) : bool :=
  String.prefix substr s
  || match s with
     | EmptyString => false
     | String _ s' => Contains s' substr
     end.

(** How a goroutine stands once the answers of the world are used up:
    it has returned, it is parked in a blocking call, or it has panicked. *)
Inductive Standing (A : Type) : Type :=
| Returned (a : A)
| Parked
| Panicked.
Arguments Returned {A} _.
Arguments Parked {A}.
Arguments Panicked {A}.

(** The result of [conn.Read(packet)]: an error, or the bytes put in the
    buffer. *)
Inductive ReadResult : Set :=
| ReadFailed (err : error)
| ReadBytes (data : list byte).

(** The result of [listen.Accept()]. *)
Inductive AcceptResult : Set :=
| AcceptFailed (err : error)
| Accepted (c : Conn).

Section Program.

Context {F : Type} `{Framer F}.

(** The body of each function handler,
    [func(s *Server, frame Framer) ([]byte, *Exception)]: the payload and the
    exception it returns, and the server as the call leaves it.  The
    handlers are declared outside the two given files. *)
Variable call :
  HandlerName -> Server -> F -> list byte * ExceptionRef * Server.

(** [NewTCPFrame(packet)], declared outside the two given files: a
    frame, or a parse error. *)
Variable NewTCPFrame : list byte -> F + error.

(** [func (s *Server) handle(request *Request) Framer].  The copy is
    taken before the handler runs and the payload is set after it on every
    path that runs one, so that nothing the handler does to the request
    frame reaches the response. *)
Definition handle (s : Server) (request : Request F) : F * Server :=
  let response := Copy (frame request) in
  let function_code := GetFunction (frame request) in
  let '(response, exception, s) :=
    match function s function_code with
    | Some fn =>
        let '(data, exception, s) := call fn s (frame request) in
        (SetData response data, exception, s)
    | None => (response, AddrOf IllegalFunction, s)
    end in
  if negb (ref_eqb exception (AddrOf Success))
  then (SetException response exception, s)
  else (response, s).

(** One turn of the loop of [handler], for the request received. *)
Definition handler_turn (s : Server) (request : Request F)
    : Server * list (Event F) :=
  let received :=
    map (fun h => EvFrameHook h (conn request) (frame request))
        (RequestReceivedEvent s) in
  let '(response, s) := handle s request in
  let written := [EvConnWrite (conn request) (Bytes response)] in
  let sent :=
    map (fun h => EvFrameHook h (conn request) response)
        (ResponseSentEvent s) in
  (s, received ++ written ++ sent).

(** [func (s *Server) handler()], for the requests handed off on the
    request channel, in the order of the hand-offs.  The loop never
    returns: with the hand-offs used up it is parked in the receive.  A
    receive on a closed channel gives the nil request, and the first use of
    it panics. *)
Fixpoint handler (s : Server) (handoffs : list (Request F))
    : Server * list (Event F) * Standing unit :=
  if closed (requestChan s) then (s, [], Panicked)
  else
    match handoffs with
    | [] => (s, [], Parked)
    | request :: rest =>
        let '(s1, ev1) := handler_turn s request in
        let '(s2, ev2, st) := handler s1 rest in
        (s2, ev1 ++ ev2, st)
    end.

(** The answers the hand-offs are due: for each request in turn, the
    connection it came with and the bytes of the response [handle] gives it,
    on the server as the handlers of the requests before it left it. *)
Fixpoint answers (s : Server) (handoffs : list (Request F))
    : list (Conn * list byte) :=
  match handoffs with
  | [] => []
  | request :: rest =>
      let '(response, s1) := handle s request in
      (conn request, Bytes response) :: answers s1 rest
  end.

(** The server once the handlers of the hand-offs have run, one after the
    other. *)
Fixpoint served (s : Server) (handoffs : list (Request F)) : Server :=
  match handoffs with
  | [] => s
  | request :: rest => served (snd (handle s request)) rest
  end.

(** *** Shutdown *)

(** Where [Close] stands. *)
Inductive ClosePoint : Set :=
| AtListeners (rest : list Listener)  (* first loop, [rest] to be closed *)
| AtSignal                            (* before close(s.portsCloseChan) *)
| AtWait                              (* in s.portsWG.Wait() *)
| AtPorts (rest : list Port)          (* second loop, [rest] to be closed *)
| CloseReturned
| ClosePanicked.

Record CloseState : Type := {
  point : ClosePoint;
  server : Server;
  done : list (Event F)
}.

(** The call [s.Close()] begins. *)
Definition Close_begin (s : Server) : CloseState :=
  {| point := AtListeners (listeners s); server := s; done := [] |}.

(** [func (s *Server) Close()], one step at a time.  [None]: no step can
    be taken, because the call is over or because [Wait] blocks.  Closing a
    closed channel panics. *)
Definition Close_step (st : CloseState) : option CloseState :=
  let s := server st in
  match point st with
  | AtListeners (listen :: rest) =>
      Some {| point := AtListeners rest;
              server := s;
              done := done st
                      ++ EvListenerClose listen
                      :: map (fun h => EvListenerHook h listen)
                             (ServerStoppedEvent s) |}
  | AtListeners [] =>
      Some {| point := AtSignal; server := s; done := done st |}
  | AtSignal =>
      if closed (portsCloseChan s)
      then Some {| point := ClosePanicked; server := s; done := done st |}
      else Some {| point := AtWait;
                   server := set_ports_sync s {| closed := true |}
                                            (portsWG s);
                   done := done st ++ [EvChanClose ThePortsCloseChan] |}
  | AtWait =>
      if N.eqb (portsWG s) 0
      then Some {| point := AtPorts (ports s);
                   server := s;
                   done := done st ++ [EvWait] |}
      else None
  | AtPorts (port :: rest) =>
      Some {| point := AtPorts rest;
              server := s;
              done := done st ++ [EvPortClose port] |}
  | AtPorts [] =>
      Some {| point := CloseReturned; server := s; done := done st |}
  | CloseReturned => None
  | ClosePanicked => None
  end.

(** A port worker exits while [Close] is under way: its
    [s.portsWG.Done()] takes one off the counter. *)
Definition worker_exit (st : CloseState) : option CloseState :=
  let s := server st in
  if N.eqb (portsWG s) 0 then None
  else Some {| point := point st;
               server := set_ports_sync s (portsCloseChan s)
                                        (N.pred (portsWG s));
               done := done st |}.

(** Who moves next. *)
Inductive Actor : Set := TheClose | AWorker.

Definition move (a : Actor) (st : CloseState) : option CloseState :=
  match a with
  | TheClose => Close_step st
  | AWorker => worker_exit st
  end.

(** A run under a schedule; an actor that cannot move is passed over. *)
Fixpoint Close_run (schedule : list Actor) (st : CloseState) : CloseState :=
  match schedule with
  | [] => st
  | a :: rest =>
      match move a st with
      | Some st' => Close_run rest st'
      | None => Close_run rest st
      end
  end.

(** Closing the listeners [ls]: each is closed, then the server-stopped
    hooks are called with it. *)
Definition listeners_closed (s : Server) (ls : list Listener)
    : list (Event F) :=
  flat_map (fun listen =>
              EvListenerClose listen
              :: map (fun h => EvListenerHook h listen)
                     (ServerStoppedEvent s))
           ls.

(** The steps of [Close], in the order of the source, for server [s]. *)
Definition Close_sequence (s : Server) : list (Event F) :=
  listeners_closed s (listeners s)
  ++ [EvChanClose ThePortsCloseChan]
  ++ [EvWait]
  ++ map EvPortClose (ports s).

(** What holds of every state of a call of [Close] on server [s0]: the
    server differs from [s0] in the stop signal and the wait group at most,
    the counter has not grown, and what has been done is what the source
    places before the point reached. *)
Definition Close_inv (s0 : Server) (st : CloseState) : Prop :=
  (exists ch wg,
      server st = set_ports_sync s0 ch wg /\ (wg <= portsWG s0)%N)
  /\ match point st with
     | AtListeners rest =>
         exists before,
           listeners s0 = before ++ rest
           /\ done st = listeners_closed s0 before
     | AtSignal => done st = listeners_closed s0 (listeners s0)
     | AtWait =>
         done st = listeners_closed s0 (listeners s0)
                   ++ [EvChanClose ThePortsCloseChan]
         /\ closed (portsCloseChan (server st)) = true
     | AtPorts rest =>
         exists before,
           ports s0 = before ++ rest
           /\ done st = listeners_closed s0 (listeners s0)
                        ++ [EvChanClose ThePortsCloseChan]
                        ++ [EvWait]
                        ++ map EvPortClose before
           /\ portsWG (server st) = 0%N
           /\ closed (portsCloseChan (server st)) = true
     | CloseReturned =>
         done st = Close_sequence s0
         /\ portsWG (server st) = 0%N
         /\ closed (portsCloseChan (server st)) = true
     | ClosePanicked => done st = listeners_closed s0 (listeners s0)
     end.

(** A schedule under which [Close] returns: it closes the listeners and
    gives the stop signal, the port workers exit, and it goes on to close
    the ports. *)
Definition Close_schedule (s : Server) : list Actor :=
  repeat TheClose (List.length (listeners s))
  ++ [TheClose; TheClose]
  ++ repeat AWorker (N.to_nat (portsWG s))
  ++ [TheClose]
  ++ repeat TheClose (List.length (ports s))
  ++ [TheClose].

(** *** The TCP side *)

(** The body of the loop of a connection worker, for the result of the
    read: the events, and whether the loop goes on. *)
Definition conn_turn (c : Conn) (r : ReadResult) : list (Event F) * bool :=
  match r with
  | ReadFailed err =>
      (if negb (is_EOF err)
       then [EvLog ("read error %v" ++ LF) err]
       else [],
       false)
  | ReadBytes data =>
      let packet := firstn 512 data in
      match NewTCPFrame packet with
      | inr err => ([EvLog ("bad packet error %v" ++ LF) err], false)
      | inl frame =>
          let request := {| conn := c; frame := frame |} in
          ([EvSend request], true)
      end
  end.

(** The loop, for the results of the successive reads. *)
Fixpoint conn_loop (c : Conn) (reads : list ReadResult)
    : list (Event F) * Standing unit :=
  match reads with
  | [] => ([], Parked)
  | r :: rest =>
      let '(ev, go_on) := conn_turn c r in
      if go_on
      then let '(ev', st) := conn_loop c rest in (ev ++ ev', st)
      else (ev, Returned tt)
  end.

(** The goroutine started for a connection: the loop, and when it
    returns the deferred function. *)
Definition conn_worker (s : Server) (c : Conn) (reads : list ReadResult)
    : list (Event F) * Standing unit :=
  let '(ev, st) := conn_loop c reads in
  match st with
  | Returned tt =>
      (ev ++ EvConnClose c
          :: map (fun h => EvConnHook h c) (ConnectionClosedEvent s),
       Returned tt)
  | _ => (ev, st)
  end.

(** [func (s *Server) accept(listen net.Listener) error], for the results
    of the successive calls of [listen.Accept()]. *)
Fixpoint accept (s : Server) (listen : Listener)
    (accepts : list AcceptResult)
    : list (Event F) * Standing (option error) :=
  match accepts with
  | [] => ([], Parked)
  | AcceptFailed err :: _ =>
      if Contains (Error err) "use of closed network connection"
      then ([], Returned None)
      else ([EvLog ("Unable to accept connections: %#v" ++ LF) err],
            Returned (Some err))
  | Accepted c :: rest =>
      let '(ev, st) := accept s listen rest in
      (map (fun h => EvConnHook h c) (ConnectionAcceptedEvent s)
       ++ EvGo (TaskConn c) :: ev,
       st)
  end.

(** [func (s *Server) ListenTCP(addressPort string) (err error)], for the
    result of [net.Listen("tcp", addressPort)]. *)
Definition ListenTCP (s : Server) (addressPort : string)
    (listening : Listener + error)
    : Server * list (Event F) * option error :=
  match listening with
  | inr err => (s, [EvLog ("Failed to Listen: %v" ++ LF) err], Some err)
  | inl listen =>
      let started :=
        map (fun h => EvListenerHook h listen) (ServerStartedEvent s) in
      let s := set_listeners s (listeners s ++ [listen]) in
      (s, started ++ [EvGo (TaskAccept listen)], None)
  end.

(** Read result [r] holds a packet that parses into frame [fr]. *)
Definition parses (r : ReadResult) (fr : F) : Prop :=
  exists data, r = ReadBytes data /\ NewTCPFrame (firstn 512 data) = inl fr.

(** Read result [r] is a failed read, or holds a packet that does not
    parse. *)
Definition fails (r : ReadResult) : Prop :=
  (exists err, r = ReadFailed err)
  \/ (exists data err,
        r = ReadBytes data /\ NewTCPFrame (firstn 512 data) = inr err).

(** What [accept] does for the connections it accepts: the
    connection-accepted hooks, then the worker. *)
Definition accepted_events (s : Server) (conns : list Conn)
    : list (Event F) :=
  flat_map (fun c =>
              map (fun h => EvConnHook h c) (ConnectionAcceptedEvent s)
              ++ [EvGo (TaskConn c)])
           conns.

End Program.

(* ================================================================== *)
(** ** Reading traces *)

Section Traces.

Context {F : Type}.

(** The requests handed to the dispatcher. *)
Fixpoint requests_of (evs : list (Event F)) : list (Request F) :=
  match evs with
  | [] => []
  | EvSend r :: rest => r :: requests_of rest
  | _ :: rest => requests_of rest
  end.

(** What was written to connection [c], write by write. *)
Fixpoint writes_to (c : Conn) (evs : list (Event F)) : list (list byte) :=
  match evs with
  | [] => []
  | EvConnWrite c' bytes :: rest =>
      if N.eqb c c' then bytes :: writes_to c rest else writes_to c rest
  | _ :: rest => writes_to c rest
  end.

(** The texts the log received. *)
Fixpoint logged (evs : list (Event F)) : list (string * error) :=
  match evs with
  | [] => []
  | EvLog format err :: rest => (format, err) :: logged rest
  | _ :: rest => logged rest
  end.

(** The goroutines started. *)
Fixpoint started (evs : list (Event F)) : list Task :=
  match evs with
  | [] => []
  | EvGo t :: rest => t :: started rest
  | _ :: rest => started rest
  end.

(** The listener hooks called, with their argument. *)
Fixpoint listener_hooks (evs : list (Event F)) : list (Hook * Listener) :=
  match evs with
  | [] => []
  | EvListenerHook h l :: rest => (h, l) :: listener_hooks rest
  | _ :: rest => listener_hooks rest
  end.

(** The channels closed. *)
Fixpoint chans_closed (evs : list (Event F)) : list ChanName :=
  match evs with
  | [] => []
  | EvChanClose ch :: rest => ch :: chans_closed rest
  | _ :: rest => chans_closed rest
  end.

(** Every write, with the connection written to. *)
Fixpoint written (evs : list (Event F)) : list (Conn * list byte) :=
  match evs with
  | [] => []
  | EvConnWrite c bytes :: rest => (c, bytes) :: written rest
  | _ :: rest => written rest
  end.

(** The ports closed. *)
Fixpoint ports_closed (evs : list (Event F)) : list Port :=
  match evs with
  | [] => []
  | EvPortClose p :: rest => p :: ports_closed rest
  | _ :: rest => ports_closed rest
  end.

(** The listeners closed. *)
Fixpoint closed_listeners (evs : list (Event F)) : list Listener :=
  match evs with
  | [] => []
  | EvListenerClose l :: rest => l :: closed_listeners rest
  | _ :: rest => closed_listeners rest
  end.

(** The connections closed. *)
Fixpoint conns_closed (evs : list (Event F)) : list Conn :=
  match evs with
  | [] => []
  | EvConnClose c :: rest => c :: conns_closed rest
  | _ :: rest => conns_closed rest
  end.

(** The connection hooks called, with their argument. *)
Fixpoint conn_hooks (evs : list (Event F)) : list (Hook * Conn) :=
  match evs with
  | [] => []
  | EvConnHook h c :: rest => (h, c) :: conn_hooks rest
  | _ :: rest => conn_hooks rest
  end.

(** An event that is no write to a connection, no hand-off of a request
    and no start of a goroutine. *)
Definition inert (e : Event F) : Prop :=
  match e with
  | EvConnWrite _ _ | EvSend _ | EvGo _ => False
  | _ => True
  end.

End Traces.

(** The error [Accept] gives on a listener that has been closed, as Go's
    [net] package builds it for a TCP listener bound to [addr]: the
    operation, the network and the address, then the text of
    [net.ErrClosed]. *)
Definition listener_closed_error (addr : string) : error :=
  ErrorString ("accept tcp " ++ addr ++ ": use of closed network connection").

(* ================================================================== *)
(** ** A frame implementation *)

(** Modelled from the spec: a frame with the parts section 2 names, a
    header, a function code, and a payload or an exception in its place.
    The wire encoding is outside the spec's scope; [Bytes] below is only one
    possible choice and nothing proved here depends on it. *)
Module SpecFrame.

Record t : Type := {
  header : list byte;
  code : byte;
  body : Carried
}.

Definition payload_bytes (f : t) : list byte :=
  match body f with
  | Payload d => d
  | Failure _ => []
  end.

#[export] Instance framer : Framer t := {
  Bytes f := header f ++ code f :: payload_bytes f;
  Copy f := {| header := header f; code := code f; body := body f |};
  GetData := payload_bytes;
  GetFunction := code;
  SetException f e :=
    {| header := header f; code := code f; body := Failure e |};
  SetData f d :=
    {| header := header f; code := code f; body := Payload d |}
}.

#[export, refine] Instance contract : FramerContract t := {
  carried := body
}.
Proof.
  - reflexivity.
  - reflexivity.
  - reflexivity.
  - intros f d Hc. unfold GetData; simpl. unfold payload_bytes.
    rewrite Hc. reflexivity.
  - reflexivity.
Defined.

(** A parser in the place of [NewTCPFrame]: the first byte is the
    function code, the rest the payload; the empty packet does not parse. *)
Definition parse (packet : list byte) : t + error :=
  match packet with
  | [] => inr (ErrorString "short packet")
  | c :: d => inl {| header := []; code := c; body := Payload d |}
  end.

End SpecFrame.

(* ================================================================== *)
(** ** Sample handlers and a sample server *)

Module Sample.

Import SpecFrame.

(** Bodies for three user handlers: the first echoes the payload of the
    request and succeeds, the second refuses with illegal-data-value, the
    third answers with a newly made exception whose code is success.  The
    built-in names stand for bodies outside the given files; here they
    fail. *)
Definition call (fn : HandlerName) (s : Server) (f : t)
    : list byte * ExceptionRef * Server :=
  match fn with
  | UserHandler 0 => (GetData f, AddrOf Success, s)
  | UserHandler 1 => ([x01], AddrOf IllegalDataValue, s)
  | UserHandler 2 => ([x2a], Allocated 1 Success, s)
  | _ => ([], AddrOf SlaveDeviceFailure, s)
  end.

(** A server with two listeners, one port with its worker still
    running, three user handlers and hooks on every event. *)
Definition server : Server :=
  let s :=
    {| Debug := false;
       listeners := [7; 8]%N;
       ports := [3]%N;
       portsWG := 1%N;
       portsCloseChan := make_chan;
       requestChan := make_chan;
       function := fun _ => None;
       DiscreteInputs := [x00; x01];
       Coils := [x01; x00];
       HoldingRegisters := [4660]%N;
       InputRegisters := [0]%N;
       ConnectionAcceptedEvent := [10]%N;
       ConnectionClosedEvent := [11]%N;
       RequestReceivedEvent := [12]%N;
       ResponseSentEvent := [13]%N;
       ServerStartedEvent := [14; 15]%N;
       ServerStoppedEvent := [16]%N |} in
  let s := RegisterFunctionHandler s x41 (Some (UserHandler 0)) in
  let s := RegisterFunctionHandler s x42 (Some (UserHandler 1)) in
  RegisterFunctionHandler s x43 (Some (UserHandler 2)).

Definition request (c : byte) (d : list byte) : Request t :=
  {| conn := 5%N;
     frame := {| header := [x00; x01]; code := c; body := Payload d |} |}.

End Sample.

(** A handler written in the Go habit that nil means no error: it echoes
    the payload and returns a nil exception. *)
Module NilSample.

Import SpecFrame.

Definition call (fn : HandlerName) (s : Server) (f : t)
    : list byte * ExceptionRef * Server :=
  (GetData f, NilRef, s).

End NilSample.

(* ================================================================== *)
(** ** Properties of the dispatch *)




(** [NewServer] installs the eight default handlers and no other, leaves
    both channels open and starts the dispatcher, once. *)
Lemma NewServer_defaults (F : Type) :
  started (snd (@NewServer F)) = [TaskHandler]
  /\ map (function (fst (@NewServer F)))
         [x01; x02; x03; x04; x05; x06; x0f; x10]
     = map Some [ReadCoils; ReadDiscreteInputs; ReadHoldingRegisters;
                 ReadInputRegisters; WriteSingleCoil; WriteHoldingRegister;
                 WriteMultipleCoils; WriteHoldingRegisters]
  /\ function (fst (@NewServer F)) x07 = None
  /\ closed (requestChan (fst (@NewServer F))) = false
  /\ closed (portsCloseChan (fst (@NewServer F))) = false.
Proof.
  repeat split; reflexivity.
Qed.

Section Dispatch.

Context {F : Type} `{FramerContract F}.
Variable call : HandlerName -> Server -> F -> list byte * ExceptionRef * Server.

(** What [handle] returns when the function table has handler [fn] for
    the request: the call of [fn] on the server and the request frame
    decides everything. *)
Lemma handle_registered (s : Server) (request : Request F) (fn : HandlerName) :
  function s (GetFunction (frame request)) = Some fn ->
  handle call s request =
    let '(data, exception, s') := call fn s (frame request) in
    if negb (ref_eqb exception (AddrOf Success))
    then (SetException (SetData (Copy (frame request)) data) exception, s')
    else (SetData (Copy (frame request)) data, s').
Proof.
  intro Hfn. unfold handle. rewrite Hfn.
  destruct (call fn s (frame request)) as [[data exception] s'].
  reflexivity.
Qed.

(** C1.  When the function table holds handler [fn] for the function code
    of the request frame, [handle] calls [fn] on the server and the request
    frame; when that call returns [&Success] with payload [data], the
    response is the copy of the request frame with [data] set and no
    exception set on it: its exception is success and its payload is
    [data]. *)
Theorem handle_registered_success
    (s : Server) (request : Request F) (fn : HandlerName)
    (data : list byte) (s' : Server) :
  function s (GetFunction (frame request)) = Some fn ->
  call fn s (frame request) = (data, AddrOf Success, s') ->
  handle call s request = (SetData (Copy (frame request)) data, s')
  /\ frameException (fst (handle call s request)) = AddrOf Success
  /\ framePayload (fst (handle call s request)) = Some data
  /\ GetData (fst (handle call s request)) = data.
Proof.
  intros Hfn Hcall.
  assert (E : handle call s request
              = (SetData (Copy (frame request)) data, s')).
  { rewrite (handle_registered _ _ _ Hfn), Hcall. reflexivity. }
  rewrite E; simpl.
  unfold frameException, framePayload.
  rewrite carried_SetData.
  repeat split.
  apply GetData_carried, carried_SetData.
Qed.

(** C2.  When the function table has no entry for the function code of
    the request frame, [handle] calls no handler and sets no payload: the
    response is the copy of the request frame with [&IllegalFunction] set on
    it, so its exception is illegal-function and it carries no payload; the
    server is left as it was. *)
Theorem handle_unregistered (s : Server) (request : Request F) :
  function s (GetFunction (frame request)) = None ->
  handle call s request
    = (SetException (Copy (frame request)) (AddrOf IllegalFunction), s)
  /\ frameException (fst (handle call s request)) = AddrOf IllegalFunction
  /\ framePayload (fst (handle call s request)) = None.
Proof.
  intro Hnone.
  assert (E : handle call s request
              = (SetException (Copy (frame request))
                              (AddrOf IllegalFunction), s)).
  { unfold handle. rewrite Hnone. reflexivity. }
  rewrite E; simpl.
  unfold frameException, framePayload.
  rewrite carried_SetException. auto.
Qed.



End Dispatch.

(* ================================================================== *)
(** ** Properties of the TCP side *)

Lemma Contains_cons (a : ascii) (s sub : string) :
  Contains s sub = true -> Contains (String a s) sub = true.
Proof.
  intro E. simpl. rewrite E. apply orb_true_r.
Qed.

Lemma Contains_append (p s sub : string) :
  Contains s sub = true -> Contains (p ++ s) sub = true.
Proof.
  intro E. induction p as [|a p IH]; [exact E|].
  simpl append. apply Contains_cons, IH.
Qed.

Lemma prefix_refl (s : string) : String.prefix s s = true.
Proof.
  induction s as [|a s IH]; [reflexivity|].
  simpl. destruct (ascii_dec a a); [exact IH | contradiction].
Qed.

Lemma Contains_refl (s : string) : Contains s s = true.
Proof.
  destruct s; cbn [Contains]; rewrite prefix_refl; reflexivity.
Qed.

Lemma prefix_spec (a s : string) :
  String.prefix a s = true <-> exists q, s = (a ++ q)%string.
Proof.
  revert s. induction a as [|x a IH]; intro s.
  - split; [|intros _; destruct s; reflexivity].
    intros _. exists s. reflexivity.
  - destruct s as [|y s]; simpl.
    + split; [discriminate|]. intros [q Hq]. discriminate.
    + destruct (ascii_dec x y) as [->|Hne].
      * rewrite IH. split; intros [q Hq]; exists q.
        -- now rewrite Hq.
        -- now inversion Hq.
      * split; [discriminate|]. intros [q Hq]. inversion Hq. congruence.
Qed.

(** [Contains s sub] holds exactly when [sub] lies somewhere in [s]. *)
Lemma Contains_spec (s sub : string) :
  Contains s sub = true <-> exists p q, s = (p ++ sub ++ q)%string.
Proof.
  split.
  - induction s as [|a s IH]; cbn [Contains]; intro Hc;
      apply orb_true_iff in Hc; destruct Hc as [Hp | Hc].
    + apply prefix_spec in Hp. destruct Hp as [q Hq].
      exists EmptyString, q. exact Hq.
    + discriminate.
    + apply prefix_spec in Hp. destruct Hp as [q Hq].
      exists EmptyString, q. exact Hq.
    + destruct (IH Hc) as (p & q & Hpq).
      exists (String a p), q. simpl. now rewrite Hpq.
  - intros (p & q & ->). apply Contains_append.
    destruct (sub ++ q)%string eqn:E; cbn [Contains]; rewrite <- E;
      apply orb_true_iff; left; apply prefix_spec; eauto.
Qed.

Section TCP.

Context {F : Type} `{Framer F}.
Variable call : HandlerName -> Server -> F -> list byte * ExceptionRef * Server.
Variable NewTCPFrame : list byte -> F + error.

Lemma requests_of_app (a b : list (Event F)) :
  requests_of (a ++ b) = requests_of a ++ requests_of b.
Proof.
  induction a as [|e a IH]; [reflexivity|].
  destruct e; simpl; rewrite IH; reflexivity.
Qed.

Lemma writes_to_app (c : Conn) (a b : list (Event F)) :
  writes_to c (a ++ b) = writes_to c a ++ writes_to c b.
Proof.
  induction a as [|e a IH]; [reflexivity|].
  destruct e; simpl; rewrite ?IH; try reflexivity.
  destruct (N.eqb c c0); simpl; rewrite ?IH; reflexivity.
Qed.

Lemma writes_to_hooks (c c' : Conn) (hs : list Hook) :
  writes_to c (map (fun h => @EvConnHook F h c') hs) = [].
Proof.
  induction hs; simpl; auto.
Qed.

Lemma requests_of_hooks (c' : Conn) (hs : list Hook) :
  requests_of (map (fun h => @EvConnHook F h c') hs) = [].
Proof.
  induction hs; simpl; auto.
Qed.

(** A failing turn logs at most, and stops the loop. *)
Lemma conn_turn_fails (c : Conn) (r : ReadResult) :
  fails NewTCPFrame r ->
  snd (conn_turn NewTCPFrame c r) = false
  /\ requests_of (fst (conn_turn NewTCPFrame c r)) = []
  /\ writes_to c (fst (conn_turn NewTCPFrame c r)) = [].
Proof.
  intros [[err ->] | (data & err & -> & Hparse)]; cbn [conn_turn].
  - destruct (is_EOF err); simpl; auto.
  - rewrite Hparse. simpl. auto.
Qed.

(** Turns that parse hand their requests off and go on. *)
Lemma conn_loop_parses (c : Conn) (goods : list ReadResult)
    (frames : list F) (rest : list ReadResult) :
  Forall2 (parses NewTCPFrame) goods frames ->
  conn_loop NewTCPFrame c (goods ++ rest)
  = (map (fun fr => EvSend {| conn := c; frame := fr |}) frames
     ++ fst (conn_loop NewTCPFrame c rest),
     snd (conn_loop NewTCPFrame c rest)).
Proof.
  induction 1 as [|r fr goods frames (data & -> & Hparse) _ IH].
  - simpl. destruct (conn_loop NewTCPFrame c rest); reflexivity.
  - change ((ReadBytes data :: goods) ++ rest)
      with (ReadBytes data :: (goods ++ rest)).
    cbn [conn_loop conn_turn]. rewrite Hparse. cbn iota.
    rewrite IH. reflexivity.
Qed.

Lemma requests_of_sends (c : Conn) (frames : list F) :
  requests_of (map (fun fr => EvSend {| conn := c; frame := fr |}) frames)
  = map (Build_Request c) frames.
Proof.
  induction frames; simpl; congruence.
Qed.

Lemma writes_to_sends (c : Conn) (frames : list F) :
  writes_to c (map (fun fr => EvSend {| conn := c; frame := fr |}) frames)
  = [].
Proof.
  induction frames; simpl; auto.
Qed.

(** C5.  In a turn of a connection worker where the read fails (the clean
    end of the stream included) or the bytes read do not parse, the loop
    stops, nothing is written to the connection and no request is handed to
    the dispatcher, which so has nothing to answer; the worker returns.
    Whatever turns went well before, the worker as a whole writes nothing to
    the connection and hands off the requests of those turns only. *)
Theorem conn_worker_failure_is_silent
    (s : Server) (c : Conn) (r : ReadResult)
    (goods : list ReadResult) (frames : list F) (rest : list ReadResult) :
  fails NewTCPFrame r ->
  Forall2 (parses NewTCPFrame) goods frames ->
  snd (conn_turn NewTCPFrame c r) = false
  /\ writes_to c (fst (conn_turn NewTCPFrame c r)) = []
  /\ requests_of (fst (conn_turn NewTCPFrame c r)) = []
  /\ (forall s0,
        snd (fst (handler call s0
                    (requests_of (fst (conn_turn NewTCPFrame c r))))) = [])
  /\ snd (conn_worker NewTCPFrame s c (goods ++ r :: rest)) = Returned tt
  /\ writes_to c (fst (conn_worker NewTCPFrame s c (goods ++ r :: rest))) = []
  /\ requests_of (fst (conn_worker NewTCPFrame s c (goods ++ r :: rest)))
     = map (Build_Request c) frames.
Proof.
  intros Hfail Hgood.
  destruct (conn_turn_fails c r Hfail) as (Hstop & Hreq & Hwr).
  split; [exact Hstop|]. split; [exact Hwr|]. split; [exact Hreq|].
  split.
  { intro s0. rewrite Hreq. simpl.
    destruct (closed (requestChan s0)); reflexivity. }
  assert (E : conn_worker NewTCPFrame s c (goods ++ r :: rest)
              = ((map (fun fr => EvSend {| conn := c; frame := fr |}) frames
                  ++ fst (conn_turn NewTCPFrame c r))
                 ++ EvConnClose c
                 :: map (fun h => EvConnHook h c) (ConnectionClosedEvent s),
                 Returned tt)).
  { unfold conn_worker. rewrite (conn_loop_parses c _ _ _ Hgood).
    cbn [conn_loop].
    destruct (conn_turn NewTCPFrame c r) as [ev go_on].
    simpl in Hstop. subst go_on. reflexivity. }
  rewrite E. cbn [fst snd].
  split; [reflexivity|]. split.
  - rewrite !writes_to_app, writes_to_sends, Hwr. simpl.
    apply writes_to_hooks.
  - rewrite !requests_of_app, requests_of_sends, Hreq. simpl.
    rewrite requests_of_hooks, !app_nil_r. reflexivity.
Qed.

Lemma accept_accepted (s : Server) (listen : Listener) (conns : list Conn)
    (rest : list AcceptResult) :
  accept s listen (map Accepted conns ++ rest)
  = (accepted_events s conns ++ fst (@accept F s listen rest),
     snd (@accept F s listen rest)).
Proof.
  induction conns as [|c conns IH].
  - simpl. destruct (accept s listen rest); reflexivity.
  - cbn [map app accept]. rewrite IH.
    unfold accepted_events. cbn [flat_map fst snd].
    rewrite <- !app_assoc. reflexivity.
Qed.

Lemma logged_app (a b : list (Event F)) :
  logged (a ++ b) = logged a ++ logged b.
Proof.
  induction a as [|e a IH]; [reflexivity|].
  destruct e; simpl; rewrite IH; reflexivity.
Qed.

Lemma logged_conn_hooks (c : Conn) (hs : list Hook) :
  logged (map (fun h => @EvConnHook F h c) hs) = [].
Proof.
  induction hs; simpl; auto.
Qed.

Lemma logged_accepted (s : Server) (conns : list Conn) :
  logged (@accepted_events F s conns) = [].
Proof.
  unfold accepted_events.
  induction conns as [|c conns IH]; [reflexivity|].
  cbn [flat_map].
  rewrite !logged_app, IH, logged_conn_hooks. reflexivity.
Qed.

(** C6.  Whatever connections it accepted before, the accept loop ends at
    the first failed accept.  When the phrase "use of closed network
    connection" stands in the text of the error, as it does in the error of
    an accept on a closed listener, the loop returns nil and logs nothing.
    For an error whose text does not hold the phrase it logs the error and
    returns it. *)
Theorem accept_closed_listener_ends_quietly
    (s : Server) (listen : Listener) (conns : list Conn)
    (err : error) (rest : list AcceptResult) :
  ((exists p q,
       Error err = (p ++ "use of closed network connection" ++ q)%string) ->
     @accept F s listen (map Accepted conns ++ AcceptFailed err :: rest)
       = (accepted_events s conns, Returned None)
     /\ logged (fst (@accept F s listen
                       (map Accepted conns ++ AcceptFailed err :: rest)))
        = [])
  /\ (~ (exists p q,
           Error err = (p ++ "use of closed network connection" ++ q)%string)
      -> @accept F s listen (map Accepted conns ++ AcceptFailed err :: rest)
         = (accepted_events s conns
            ++ [EvLog ("Unable to accept connections: %#v" ++ LF) err],
            Returned (Some err)))
  /\ (forall addr,
        @accept F s listen
          (map Accepted conns
           ++ AcceptFailed (listener_closed_error addr) :: rest)
        = (accepted_events s conns, Returned None))
  /\ @accept F s listen (map Accepted conns ++ AcceptFailed io_EOF :: rest)
     = (accepted_events s conns
        ++ [EvLog ("Unable to accept connections: %#v" ++ LF) io_EOF],
        Returned (Some io_EOF)).
Proof.
  split; [|split; [|split]].
  - intro Hc. apply Contains_spec in Hc.
    rewrite accept_accepted. cbn [accept]. rewrite Hc.
    cbn [fst snd]. rewrite app_nil_r. split; [reflexivity|].
    apply logged_accepted.
  - intro Hc. rewrite <- Contains_spec in Hc.
    apply not_true_is_false in Hc.
    rewrite accept_accepted. cbn [accept]. rewrite Hc.
    reflexivity.
  - intro addr.
    assert (Hc : Contains (Error (listener_closed_error addr))
                          "use of closed network connection" = true).
    { unfold listener_closed_error, Error.
      apply Contains_append, Contains_append.
      do 2 apply Contains_cons. apply Contains_refl. }
    rewrite accept_accepted. cbn [accept]. rewrite Hc.
    cbn [fst snd]. rewrite app_nil_r. reflexivity.
  - rewrite accept_accepted. reflexivity.
Qed.

(** C7.  When [net.Listen] fails, [ListenTCP] returns that error and
    leaves the server as it was: no listener is recorded, no hook is called
    and no goroutine is started (the failure is logged).  When it succeeds,
    [ListenTCP] calls the server-started hooks in the order of their list,
    each with the listener, appends the listener to the recorded listeners,
    starts the accept loop for it as a goroutine, and returns no error. *)
Theorem ListenTCP_fails_clean_or_starts (s : Server) (addressPort : string) :
  (forall err,
      @ListenTCP F s addressPort (inr err)
        = (s, [EvLog ("Failed to Listen: %v" ++ LF) err], Some err)
      /\ listener_hooks
           (snd (fst (@ListenTCP F s addressPort (inr err)))) = []
      /\ started (snd (fst (@ListenTCP F s addressPort (inr err)))) = [])
  /\ (forall listen,
        @ListenTCP F s addressPort (inl listen)
          = (set_listeners s (listeners s ++ [listen]),
             map (fun h => EvListenerHook h listen) (ServerStartedEvent s)
             ++ [EvGo (TaskAccept listen)],
             None)
        /\ listeners (fst (fst (@ListenTCP F s addressPort (inl listen))))
           = listeners s ++ [listen]
        /\ listener_hooks
             (snd (fst (@ListenTCP F s addressPort (inl listen))))
           = map (fun h => (h, listen)) (ServerStartedEvent s)
        /\ started (snd (fst (@ListenTCP F s addressPort (inl listen))))
           = [TaskAccept listen]).
Proof.
  split.
  - intro err. simpl. auto.
  - intro listen. cbn [ListenTCP fst snd].
    split; [reflexivity|]. split; [reflexivity|].
    induction (ServerStartedEvent s) as [|h hs [IH1 IH2]]; simpl.
    + auto.
    + rewrite IH1, IH2. auto.
Qed.

End TCP.

(* ================================================================== *)
(** ** Properties of the shutdown *)

Section Shutdown.

Context {F : Type}.

Lemma Close_inv_begin (s : Server) : Close_inv s (@Close_begin F s).
Proof.
  split.
  - exists (portsCloseChan s), (portsWG s). split; [|lia].
    destruct s; reflexivity.
  - simpl. exists []. auto.
Qed.

Lemma listeners_closed_app (s : Server) (a b : list Listener) :
  @listeners_closed F s (a ++ b) = listeners_closed s a ++ listeners_closed s b.
Proof.
  unfold listeners_closed. apply flat_map_app.
Qed.

(** Every step of [Close] keeps the invariant. *)
Lemma Close_inv_step (s0 : Server) (st st' : @CloseState F) :
  Close_inv s0 st -> Close_step st = Some st' -> Close_inv s0 st'.
Proof.
  intros [(ch & wg & Hs & Hle) Hp] Hstep.
  unfold Close_step in Hstep.
  destruct (point st) as [[|listen rest]| | |[|port rest]| |] eqn:Ept.
  - (* the first loop is over *)
    inversion Hstep; subst st'; clear Hstep.
    split; [exists ch, wg; auto|]. simpl.
    destruct Hp as (before & Hl & Hd). rewrite app_nil_r in Hl.
    now subst before.
  - (* a listener is closed *)
    inversion Hstep; subst st'; clear Hstep.
    split; [exists ch, wg; auto|]. simpl.
    destruct Hp as (before & Hl & Hd).
    exists (before ++ [listen]). split.
    + rewrite <- app_assoc. exact Hl.
    + rewrite Hd, listeners_closed_app. f_equal.
      unfold listeners_closed. simpl. rewrite app_nil_r.
      rewrite Hs. reflexivity.
  - (* the stop signal *)
    destruct (closed (portsCloseChan (server st))) eqn:Ecl;
      inversion Hstep; subst st'; clear Hstep.
    + split; [exists ch, wg; auto|]. exact Hp.
    + split.
      * exists {| closed := true |}, wg. split; [|exact Hle].
        simpl. rewrite Hs. reflexivity.
      * simpl. rewrite Hp. auto.
  - (* the wait *)
    destruct (N.eqb (portsWG (server st)) 0) eqn:Ewg; [|discriminate].
    inversion Hstep; subst st'; clear Hstep.
    apply N.eqb_eq in Ewg.
    split; [exists ch, wg; auto|]. simpl.
    destruct Hp as (Hd & Hcl).
    exists []. repeat split; auto.
    + rewrite Hs. reflexivity.
    + rewrite Hd, <- !app_assoc. reflexivity.
  - (* the second loop is over *)
    inversion Hstep; subst st'; clear Hstep.
    split; [exists ch, wg; auto|]. simpl.
    destruct Hp as (before & Hl & Hd & Hz & Hcl).
    rewrite app_nil_r in Hl. subst before.
    repeat split; auto.
  - (* a port is closed *)
    inversion Hstep; subst st'; clear Hstep.
    split; [exists ch, wg; auto|]. simpl.
    destruct Hp as (before & Hl & Hd & Hz & Hcl).
    exists (before ++ [port]). repeat split; auto.
    + rewrite <- app_assoc. exact Hl.
    + rewrite Hd, map_app, <- !app_assoc. reflexivity.
  - discriminate.
  - discriminate.
Qed.

(** So does the exit of a port worker. *)
Lemma Close_inv_worker (s0 : Server) (st st' : @CloseState F) :
  Close_inv s0 st -> worker_exit st = Some st' -> Close_inv s0 st'.
Proof.
  intros [(ch & wg & Hs & Hle) Hp] Hstep.
  unfold worker_exit in Hstep.
  destruct (N.eqb (portsWG (server st)) 0) eqn:Ewg; [discriminate|].
  inversion Hstep; subst st'; clear Hstep.
  apply N.eqb_neq in Ewg.
  assert (Hwg : portsWG (server st) = wg) by (rewrite Hs; reflexivity).
  assert (Hch : portsCloseChan (server st) = ch) by (rewrite Hs; reflexivity).
  split.
  - exists ch, (N.pred wg). split; [|lia].
    simpl. rewrite Hwg, Hch, Hs. reflexivity.
  - simpl.
    destruct (point st) as [rest| | |rest| |]; auto.
    + destruct Hp as (before & Hl & Hd & Hz & Hcl). congruence.
    + destruct Hp as (Hd & Hz & Hcl). congruence.
Qed.

Lemma Close_inv_run (s0 : Server) (schedule : list Actor) (st : @CloseState F) :
  Close_inv s0 st -> Close_inv s0 (Close_run schedule st).
Proof.
  revert st. induction schedule as [|a schedule IH]; intros st Hinv.
  - exact Hinv.
  - simpl. destruct (move a st) as [st'|] eqn:Em.
    + apply IH. destruct a; simpl in Em.
      * eapply Close_inv_step; eauto.
      * eapply Close_inv_worker; eauto.
    + apply IH, Hinv.
Qed.

(** What has been done is always a beginning of the sequence of the
    source. *)
Lemma Close_inv_prefix (s0 : Server) (st : @CloseState F) :
  Close_inv s0 st -> exists rest, Close_sequence s0 = done st ++ rest.
Proof.
  intros [_ Hp]. unfold Close_sequence.
  destruct (point st) as [rest| | |rest| |].
  - destruct Hp as (before & Hl & Hd). rewrite Hd, Hl, listeners_closed_app.
    rewrite <- app_assoc. eauto.
  - rewrite Hp. eauto.
  - destruct Hp as [Hd _]. rewrite Hd. eexists.
    rewrite <- app_assoc. reflexivity.
  - destruct Hp as (before & Hl & Hd & _). rewrite Hd, Hl, map_app.
    exists (map EvPortClose rest).
    rewrite <- !app_assoc. reflexivity.
  - destruct Hp as [Hd _]. rewrite Hd. exists []. now rewrite app_nil_r.
  - rewrite Hp. eauto.
Qed.

Lemma Close_run_app (a b : list Actor) (st : @CloseState F) :
  Close_run (a ++ b) st = Close_run b (Close_run a st).
Proof.
  revert st. induction a as [|x a IH]; intro st; [reflexivity|].
  simpl. destruct (move x st); apply IH.
Qed.

Lemma Close_run_listeners (s : Server) (ls : list Listener)
    (d : list (Event F)) :
  Close_run (repeat TheClose (List.length ls))
            {| point := AtListeners ls; server := s; done := d |}
  = {| point := AtListeners []; server := s;
       done := d ++ listeners_closed s ls |}.
Proof.
  revert d. induction ls as [|l ls IH]; intro d.
  - simpl. now rewrite app_nil_r.
  - cbn [List.length repeat Close_run move Close_step point server done].
    rewrite IH. f_equal.
    change (l :: ls) with ([l] ++ ls).
    rewrite listeners_closed_app, app_assoc. f_equal.
    unfold listeners_closed. simpl. now rewrite app_nil_r.
Qed.

Lemma Close_run_ports (s : Server) (ps : list Port) (d : list (Event F)) :
  Close_run (repeat TheClose (List.length ps))
            {| point := AtPorts ps; server := s; done := d |}
  = {| point := AtPorts []; server := s;
       done := d ++ map EvPortClose ps |}.
Proof.
  revert d. induction ps as [|p ps IH]; intro d.
  - simpl. now rewrite app_nil_r.
  - cbn [List.length repeat Close_run move Close_step point server done].
    rewrite IH, <- app_assoc. reflexivity.
Qed.

Lemma Close_run_workers (s : Server) (ch : Chan) (n : nat)
    (p : ClosePoint) (d : list (Event F)) :
  Close_run (repeat AWorker n)
            {| point := p; server := set_ports_sync s ch (N.of_nat n);
               done := d |}
  = {| point := p; server := set_ports_sync s ch 0; done := d |}.
Proof.
  induction n as [|n IH]; [reflexivity|].
  cbn [repeat Close_run move]. unfold worker_exit.
  cbn [server point done]. 
  replace (portsWG (set_ports_sync s ch (N.of_nat (S n))))
    with (N.of_nat (S n)) by reflexivity.
  destruct (N.eqb (N.of_nat (S n)) 0) eqn:E.
  - apply N.eqb_eq in E. lia.
  - replace (N.pred (N.of_nat (S n))) with (N.of_nat n) by lia.
    exact IH.
Qed.

(** Under [Close_schedule] the call returns, when the stop signal has not
    been given before. *)
Lemma Close_schedule_returns (s : Server) :
  closed (portsCloseChan s) = false ->
  point (Close_run (Close_schedule s) (@Close_begin F s)) = CloseReturned.
Proof.
  intro Hopen. unfold Close_schedule, Close_begin.
  rewrite Close_run_app, Close_run_listeners.
  rewrite Close_run_app.
  cbn [Close_run move Close_step point server done]. rewrite Hopen.
  rewrite Close_run_app.
  rewrite <- (N2Nat.id (portsWG s)) at 2.
  rewrite Close_run_workers.
  rewrite Close_run_app.
  cbn [Close_run move Close_step point server done].
  replace (N.eqb (portsWG (set_ports_sync s {| closed := true |} 0)) 0)
    with true by reflexivity.
  rewrite Close_run_app.
  replace (ports (set_ports_sync s {| closed := true |} 0))
    with (ports s) by reflexivity.
  rewrite Close_run_ports.
  reflexivity.
Qed.

(** C8.  In every run of [Close], whatever the port workers do meanwhile,
    what has been done is a beginning of this sequence: each recorded
    listener closed and the server-stopped hooks called with it, the stop
    signal given, the wait on the wait group over, each recorded port
    closed.  [Wait] does not let the call go on while the counter is not
    zero; when the call has returned, the whole sequence has been done and
    the counter of the wait group is zero, which is to say every port worker
    has exited.  And the call does return when the workers exit, provided
    the stop signal was not already given. *)
Theorem Close_steps_in_order (s : Server) (schedule : list Actor) :
  (exists rest,
      Close_sequence s = done (Close_run schedule (@Close_begin F s)) ++ rest)
  /\ (point (Close_run schedule (@Close_begin F s)) = AtWait ->
      portsWG (server (Close_run schedule (@Close_begin F s))) <> 0%N ->
      Close_step (Close_run schedule (@Close_begin F s)) = None)
  /\ (point (Close_run schedule (@Close_begin F s)) = CloseReturned ->
      done (Close_run schedule (@Close_begin F s)) = Close_sequence s
      /\ portsWG (server (Close_run schedule (@Close_begin F s))) = 0%N
      /\ closed (portsCloseChan
                   (server (Close_run schedule (@Close_begin F s)))) = true)
  /\ (closed (portsCloseChan s) = false ->
      point (Close_run (Close_schedule s) (@Close_begin F s))
      = CloseReturned).
Proof.
  pose proof (Close_inv_run s schedule _ (Close_inv_begin s)) as Hinv.
  split; [exact (Close_inv_prefix _ _ Hinv)|].
  split; [|split].
  - intros Hpt Hwg. unfold Close_step. rewrite Hpt.
    apply N.eqb_neq in Hwg. rewrite Hwg. reflexivity.
  - intro Hpt. destruct Hinv as [_ Hp]. rewrite Hpt in Hp. exact Hp.
  - apply Close_schedule_returns.
Qed.

End Shutdown.

Section AfterShutdown.

Context {F : Type} `{Framer F}.
Variable call : HandlerName -> Server -> F -> list byte * ExceptionRef * Server.

Lemma chans_closed_app (a b : list (Event F)) :
  chans_closed (a ++ b) = chans_closed a ++ chans_closed b.
Proof.
  induction a as [|e a IH]; [reflexivity|].
  destruct e; simpl; rewrite IH; reflexivity.
Qed.

Lemma chans_closed_listeners (s : Server) (ls : list Listener) :
  chans_closed (@listeners_closed F s ls) = [].
Proof.
  unfold listeners_closed.
  induction ls as [|l ls IH]; [reflexivity|].
  cbn [flat_map]. rewrite chans_closed_app, IH, app_nil_r.
  cbn [chans_closed]. clear IH.
  induction (ServerStoppedEvent s); simpl; auto.
Qed.

Lemma chans_closed_ports (ps : list Port) :
  chans_closed (map (@EvPortClose F) ps) = [].
Proof.
  induction ps; simpl; auto.
Qed.

(** The one channel [Close] closes is the stop signal of the ports. *)
Lemma chans_closed_sequence (s : Server) :
  chans_closed (@Close_sequence F s) = [ThePortsCloseChan].
Proof.
  unfold Close_sequence.
  rewrite !chans_closed_app, chans_closed_listeners, chans_closed_ports.
  reflexivity.
Qed.

Lemma writes_to_frame_hooks (c : Conn) (f : F) (hs : list Hook) :
  writes_to c (map (fun h => EvFrameHook h c f) hs) = [].
Proof.
  induction hs; simpl; auto.
Qed.

(** The dispatcher writes one response per turn, to the connection of the
    request. *)
Lemma handler_turn_writes (s : Server) (request : Request F) :
  writes_to (conn request) (snd (handler_turn call s request))
  = [Bytes (fst (handle call s request))].
Proof.
  unfold handler_turn.
  destruct (handle call s request) as [response s1]. cbn [fst snd].
  rewrite !writes_to_app, !writes_to_frame_hooks.
  simpl. rewrite N.eqb_refl. reflexivity.
Qed.

(** C10.  At every point of a call of [Close], and so once it has
    returned, the server has the request channel, the function table and
    the four memory banks it had before, and the only channel closed is the
    stop signal of the ports.  With the request channel open, the dispatcher
    started on the server as [Close] leaves it receives the next request
    handed off, takes its turn on it and goes on with the following ones; in
    that turn it writes the response to the connection of the request, and
    the response is the one the function table, unchanged, decides. *)
Theorem Close_leaves_dispatcher_running
    (s s' : Server) (schedule : list Actor)
    (request : Request F) (rest : list (Request F)) :
  s' = server (Close_run schedule (@Close_begin F s)) ->
  requestChan s' = requestChan s
  /\ function s' = function s
  /\ DiscreteInputs s' = DiscreteInputs s
  /\ Coils s' = Coils s
  /\ HoldingRegisters s' = HoldingRegisters s
  /\ InputRegisters s' = InputRegisters s
  /\ (forall ch,
        In ch (chans_closed (done (Close_run schedule (@Close_begin F s)))) ->
        ch = ThePortsCloseChan)
  /\ (closed (requestChan s) = false ->
      handler call s' (request :: rest)
      = (let '(s1, ev1) := handler_turn call s' request in
         let '(s2, ev2, st) := handler call s1 rest in
         (s2, ev1 ++ ev2, st))
      /\ writes_to (conn request) (snd (handler_turn call s' request))
         = [Bytes (fst (handle call s' request))]
      /\ handle call s' request
         = match function s (GetFunction (frame request)) with
           | Some fn =>
               let '(data, exception, s1) := call fn s' (frame request) in
               if negb (ref_eqb exception (AddrOf Success))
               then (SetException (SetData (Copy (frame request)) data)
                                  exception, s1)
               else (SetData (Copy (frame request)) data, s1)
           | None =>
               (SetException (Copy (frame request))
                             (AddrOf IllegalFunction), s')
           end).
Proof.
  intro Hs'.
  pose proof (@Close_inv_run F s schedule _ (Close_inv_begin s)) as Hinv.
  destruct (Close_inv_prefix _ _ Hinv) as [after Hpre].
  destruct Hinv as [(ch & wg & Hsrv & _) _].
  rewrite Hsrv in Hs'. subst s'.
  repeat (split; [reflexivity|]).
  split.
  - intros c Hin.
    pose proof (chans_closed_sequence s) as Hseq.
    rewrite Hpre, chans_closed_app in Hseq.
    assert (Hin' : In c [ThePortsCloseChan]).
    { rewrite <- Hseq. apply in_or_app. now left. }
    destruct Hin' as [E | []]. now symmetry.
  - intro Hopen. split; [|split].
    + cbn [handler]. 
      replace (closed (requestChan (set_ports_sync s ch wg)))
        with (closed (requestChan s)) by reflexivity.
      rewrite Hopen. reflexivity.
    + apply handler_turn_writes.
    + unfold handle.
      replace (function (set_ports_sync s ch wg)) with (function s)
        by reflexivity.
      destruct (function s (GetFunction (frame request))) as [fn|].
      * destruct (call fn (set_ports_sync s ch wg) (frame request))
          as [[data exception] s1]. reflexivity.
      * reflexivity.
Qed.

End AfterShutdown.

(* ================================================================== *)
(** ** The properties at work on the sample server *)

Import SpecFrame.

(** The echo handler, registered for function code 0x41, succeeds: the
    response carries its payload. *)
Lemma handle_registered_success_sample :
  function Sample.server (GetFunction (frame (Sample.request x41 [x0a; x0b])))
    = Some (UserHandler 0)
  /\ frameException
       (fst (handle Sample.call Sample.server (Sample.request x41 [x0a; x0b])))
     = AddrOf Success
  /\ GetData
       (fst (handle Sample.call Sample.server (Sample.request x41 [x0a; x0b])))
     = [x0a; x0b].
Proof.
  split; [reflexivity|].
  destruct (@handle_registered_success t framer contract Sample.call Sample.server
              (Sample.request x41 [x0a; x0b]) (UserHandler 0)
              [x0a; x0b] Sample.server ltac:(reflexivity) ltac:(reflexivity))
    as (_ & Hexc & _ & Hdata).
  split; [exact Hexc | exact Hdata].
Defined.

(** Function code 0x07 has no handler on the sample server. *)
Lemma handle_unregistered_sample :
  function Sample.server (GetFunction (frame (Sample.request x07 [x0a])))
    = None
  /\ frameException
       (fst (handle Sample.call Sample.server (Sample.request x07 [x0a])))
     = AddrOf IllegalFunction
  /\ framePayload
       (fst (handle Sample.call Sample.server (Sample.request x07 [x0a])))
     = None.
Proof.
  split; [reflexivity|].
  destruct (@handle_unregistered t framer contract Sample.call Sample.server
              (Sample.request x07 [x0a]) ltac:(reflexivity))
    as (_ & Hexc & Hpay).
  split; [exact Hexc | exact Hpay].
Defined.



(** A worker whose first packet parses and whose second is empty, which
    does not parse: one request handed off, nothing written, worker over. *)
Lemma conn_worker_failure_is_silent_sample :
  fails parse (ReadBytes [])
  /\ snd (conn_worker parse Sample.server 5%N
            ([ReadBytes [x41; x01]] ++ ReadBytes [] :: [ReadBytes [x41]]))
     = Returned tt
  /\ writes_to 5%N
       (fst (conn_worker parse Sample.server 5%N
               ([ReadBytes [x41; x01]] ++ ReadBytes [] :: [ReadBytes [x41]])))
     = []
  /\ requests_of
       (fst (conn_worker parse Sample.server 5%N
               ([ReadBytes [x41; x01]] ++ ReadBytes [] :: [ReadBytes [x41]])))
     = [{| conn := 5%N;
           frame := {| header := []; code := x41; body := Payload [x01] |} |}].
Proof.
  assert (Hfail : fails parse (ReadBytes [])).
  { right. exists [], (ErrorString "short packet"). split; reflexivity. }
  assert (Hgood : Forall2 (parses parse) [ReadBytes [x41; x01]]
                    [{| header := []; code := x41; body := Payload [x01] |}]).
  { constructor; [|constructor]. exists [x41; x01]. split; reflexivity. }
  split; [exact Hfail|].
  destruct (@conn_worker_failure_is_silent t framer Sample.call parse Sample.server
              5%N (ReadBytes []) _ _ [ReadBytes [x41]] Hfail Hgood)
    as (_ & _ & _ & _ & Hret & Hwr & Hreq).
  split; [exact Hret|]. split; [exact Hwr | exact Hreq].
Defined.

(** One connection accepted, then the listener is closed; and the same
    with an error of another kind. *)
Lemma accept_closed_listener_ends_quietly_sample :
  @accept t Sample.server 7%N
    (map Accepted [5%N]
     ++ AcceptFailed (listener_closed_error "127.0.0.1:502") :: [])
  = ([EvConnHook 10%N 5%N; EvGo (TaskConn 5%N)], Returned None)
  /\ @accept t Sample.server 7%N
       (map Accepted [5%N]
        ++ AcceptFailed (ErrorString "too many open files") :: [])
     = ([EvConnHook 10%N 5%N; EvGo (TaskConn 5%N);
         EvLog ("Unable to accept connections: %#v" ++ LF)
               (ErrorString "too many open files")],
        Returned (Some (ErrorString "too many open files"))).
Proof.
  split.
  - destruct (@accept_closed_listener_ends_quietly t Sample.server 7%N [5%N]
                (listener_closed_error "127.0.0.1:502") [])
      as [Hquiet _].
    assert (Hin : exists p q,
               Error (listener_closed_error "127.0.0.1:502")
               = (p ++ "use of closed network connection" ++ q)%string).
    { exists "accept tcp 127.0.0.1:502: "%string, ""%string. reflexivity. }
    exact (proj1 (Hquiet Hin)).
  - destruct (@accept_closed_listener_ends_quietly t Sample.server 7%N [5%N]
                (ErrorString "too many open files") [])
      as (_ & Hloud & _).
    apply Hloud. intro Hin. apply Contains_spec in Hin.
    vm_compute in Hin. discriminate Hin.
Defined.

(** [Close] on the sample server, whose one port worker exits after the
    stop signal. *)
Lemma Close_steps_in_order_sample :
  closed (portsCloseChan Sample.server) = false
  /\ point (Close_run (Close_schedule Sample.server)
                      (@Close_begin t Sample.server)) = CloseReturned
  /\ done (Close_run (Close_schedule Sample.server)
                     (@Close_begin t Sample.server))
     = [EvListenerClose 7%N; EvListenerHook 16%N 7%N;
        EvListenerClose 8%N; EvListenerHook 16%N 8%N;
        EvChanClose ThePortsCloseChan; EvWait; EvPortClose 3%N]
  /\ portsWG (server (Close_run (Close_schedule Sample.server)
                                (@Close_begin t Sample.server))) = 0%N.
Proof.
  split; [reflexivity|].
  destruct (@Close_steps_in_order t Sample.server
              (Close_schedule Sample.server))
    as (_ & _ & Hret & Hlive).
  split; [exact (Hlive ltac:(reflexivity))|].
  destruct (Hret (Hlive ltac:(reflexivity))) as (Hdone & Hwg & _).
  split; [exact Hdone | exact Hwg].
Defined.

(** After [Close] on the sample server, a request for the echo handler is
    still answered on its connection. *)
Lemma Close_leaves_dispatcher_running_sample :
  closed (requestChan Sample.server) = false
  /\ requestChan (server (Close_run (Close_schedule Sample.server)
                                    (@Close_begin t Sample.server)))
     = requestChan Sample.server
  /\ writes_to 5%N
       (snd (handler_turn Sample.call
               (server (Close_run (Close_schedule Sample.server)
                                  (@Close_begin t Sample.server)))
               (Sample.request x41 [x0a])))
     = [Bytes (fst (handle Sample.call
                      (server (Close_run (Close_schedule Sample.server)
                                         (@Close_begin t Sample.server)))
                      (Sample.request x41 [x0a])))].
Proof.
  split; [reflexivity|].
  destruct (@Close_leaves_dispatcher_running t framer Sample.call Sample.server _
              (Close_schedule Sample.server) (Sample.request x41 [x0a]) []
              ltac:(reflexivity))
    as (Hchan & _ & _ & _ & _ & _ & _ & Hrun).
  split; [exact Hchan|].
  destruct (Hrun ltac:(reflexivity)) as (_ & Hwr & _).
  exact Hwr.
Defined.

(* ================================================================== *)
(** ** The function table *)

Lemma Byte_eqb_refl (c : byte) : Byte.eqb c c = true.
Proof.
  apply byte_dec_lb. reflexivity.
Qed.

Lemma Byte_eqb_neq (a b : byte) : a <> b -> Byte.eqb a b = false.
Proof.
  intro N. destruct (Byte.eqb a b) eqn:E; [|reflexivity].
  apply byte_dec_bl in E. contradiction.
Qed.

Section FunctionTable.

Context {F : Type} `{Framer F}.
Variable call : HandlerName -> Server -> F -> list byte * ExceptionRef * Server.

(** X1.  A handler registered for a function code takes the place of
    whatever the table held for it, a default handler included: every
    request with that code is then answered by the new handler, called on
    the server as registered and on the request frame. *)
Theorem RegisterFunctionHandler_then_dispatch
    (s : Server) (funcCode : byte) (fn : HandlerName) (request : Request F) :
  GetFunction (frame request) = funcCode ->
  function (RegisterFunctionHandler s funcCode (Some fn)) funcCode = Some fn
  /\ handle call (RegisterFunctionHandler s funcCode (Some fn)) request
     = (let '(data, exception, s') :=
          call fn (RegisterFunctionHandler s funcCode (Some fn))
               (frame request) in
        if negb (ref_eqb exception (AddrOf Success))
        then (SetException (SetData (Copy (frame request)) data) exception,
              s')
        else (SetData (Copy (frame request)) data, s')).
Proof.
  intro Hcode.
  assert (E : function (RegisterFunctionHandler s funcCode (Some fn)) funcCode
              = Some fn).
  { simpl. now rewrite Byte_eqb_refl. }
  split; [exact E|].
  apply handle_registered. rewrite Hcode. exact E.
Qed.

(** X2.  A registration writes one entry of the table and nothing else.
    The entry of every other function code is as before, so a request with
    another code is dispatched to the handler it had, or refused as an
    illegal function when it had none; the memory banks, the channels and
    the wait group are untouched. *)
Theorem RegisterFunctionHandler_writes_one_entry
    (s : Server) (funcCode : byte) (fn : option HandlerName)
    (request : Request F) :
  GetFunction (frame request) <> funcCode ->
  function (RegisterFunctionHandler s funcCode fn)
           (GetFunction (frame request))
  = function s (GetFunction (frame request))
  /\ handle call (RegisterFunctionHandler s funcCode fn) request
     = match function s (GetFunction (frame request)) with
       | Some h =>
           let '(data, exception, s') :=
             call h (RegisterFunctionHandler s funcCode fn)
                  (frame request) in
           if negb (ref_eqb exception (AddrOf Success))
           then (SetException (SetData (Copy (frame request)) data)
                              exception, s')
           else (SetData (Copy (frame request)) data, s')
       | None =>
           (SetException (Copy (frame request)) (AddrOf IllegalFunction),
            RegisterFunctionHandler s funcCode fn)
       end
  /\ DiscreteInputs (RegisterFunctionHandler s funcCode fn) = DiscreteInputs s
  /\ Coils (RegisterFunctionHandler s funcCode fn) = Coils s
  /\ HoldingRegisters (RegisterFunctionHandler s funcCode fn)
     = HoldingRegisters s
  /\ InputRegisters (RegisterFunctionHandler s funcCode fn) = InputRegisters s
  /\ requestChan (RegisterFunctionHandler s funcCode fn) = requestChan s
  /\ portsCloseChan (RegisterFunctionHandler s funcCode fn) = portsCloseChan s
  /\ portsWG (RegisterFunctionHandler s funcCode fn) = portsWG s.
Proof.
  intro Hne.
  assert (E : function (RegisterFunctionHandler s funcCode fn)
                       (GetFunction (frame request))
              = function s (GetFunction (frame request))).
  { simpl. now rewrite (Byte_eqb_neq _ _ Hne). }
  split; [exact E|]. split; [|repeat split].
  destruct (function s (GetFunction (frame request))) as [h|] eqn:Eh.
  - apply handle_registered. exact E.
  - unfold handle. rewrite E. reflexivity.
Qed.

(** X3.  Registering the nil function for a code takes the code out of
    service, whatever handler it had: a request with that code calls no
    handler, leaves the server as it is and is answered with the
    illegal-function exception set on the copy of its frame. *)
Theorem RegisterFunctionHandler_nil_unregisters
    (s : Server) (funcCode : byte) (request : Request F) :
  GetFunction (frame request) = funcCode ->
  function (RegisterFunctionHandler s funcCode None) funcCode = None
  /\ handle call (RegisterFunctionHandler s funcCode None) request
     = (SetException (Copy (frame request)) (AddrOf IllegalFunction),
        RegisterFunctionHandler s funcCode None).
Proof.
  intro Hcode.
  assert (E : function (RegisterFunctionHandler s funcCode None) funcCode
              = None).
  { simpl. now rewrite Byte_eqb_refl. }
  split; [exact E|].
  unfold handle. rewrite Hcode, E. reflexivity.
Qed.

(** X4.  Of two registrations for one function code the later one
    decides every lookup, and registrations for two different codes give the
    same table in either order. *)
Theorem RegisterFunctionHandler_last_wins
    (s : Server) (c1 c2 : byte) (f1 f2 : option HandlerName) (c : byte) :
  function (RegisterFunctionHandler (RegisterFunctionHandler s c1 f1) c1 f2) c
  = function (RegisterFunctionHandler s c1 f2) c
  /\ (c1 <> c2 ->
      function (RegisterFunctionHandler (RegisterFunctionHandler s c1 f1)
                                        c2 f2) c
      = function (RegisterFunctionHandler (RegisterFunctionHandler s c2 f2)
                                          c1 f1) c).
Proof.
  split.
  - simpl. destruct (Byte.eqb c c1); reflexivity.
  - intro Hne. simpl.
    destruct (Byte.eqb c c2) eqn:E2, (Byte.eqb c c1) eqn:E1;
      try reflexivity.
    apply byte_dec_bl in E1, E2. congruence.
Qed.

(** The function codes a new server serves. *)
Lemma NewServer_serves (c : byte) :
  match function (fst (@NewServer F)) c with
  | Some _ => true
  | None => false
  end
  = existsb (Byte.eqb c) [x01; x02; x03; x04; x05; x06; x0f; x10].
Proof.
  destruct c; reflexivity.
Qed.

(** X5.  A new server serves the function codes 1, 2, 3, 4, 5, 6, 15 and
    16 and no other: a request with any other code is answered with the
    illegal-function exception and calls no handler.  Each of its four
    memory banks has 65536 entries, all zero. *)
Theorem NewServer_function_table_and_banks (request : Request F) :
  (function (fst (@NewServer F)) (GetFunction (frame request)) <> None
   <-> In (GetFunction (frame request))
          [x01; x02; x03; x04; x05; x06; x0f; x10])
  /\ (~ In (GetFunction (frame request))
           [x01; x02; x03; x04; x05; x06; x0f; x10] ->
      handle call (fst (@NewServer F)) request
      = (SetException (Copy (frame request)) (AddrOf IllegalFunction),
         fst (@NewServer F)))
  /\ (N.of_nat (List.length (DiscreteInputs (fst (@NewServer F)))) = 65536%N
      /\ Forall (eq x00) (DiscreteInputs (fst (@NewServer F))))
  /\ (N.of_nat (List.length (Coils (fst (@NewServer F)))) = 65536%N
      /\ Forall (eq x00) (Coils (fst (@NewServer F))))
  /\ (N.of_nat (List.length (HoldingRegisters (fst (@NewServer F))))
      = 65536%N
      /\ Forall (eq 0%N) (HoldingRegisters (fst (@NewServer F))))
  /\ (N.of_nat (List.length (InputRegisters (fst (@NewServer F)))) = 65536%N
      /\ Forall (eq 0%N) (InputRegisters (fst (@NewServer F)))).
Proof.
  assert (Hin : function (fst (@NewServer F)) (GetFunction (frame request))
                <> None
                <-> In (GetFunction (frame request))
                       [x01; x02; x03; x04; x05; x06; x0f; x10]).
  { pose proof (NewServer_serves (GetFunction (frame request))) as Hs.
    split.
    - intro Hsome.
      destruct (function (fst (@NewServer F)) (GetFunction (frame request)));
        [|contradiction].
      symmetry in Hs. apply existsb_exists in Hs.
      destruct Hs as (x & Hx & Hxe). apply byte_dec_bl in Hxe.
      now subst x.
    - intros Hmem Hnone. rewrite Hnone in Hs. symmetry in Hs.
      assert (Ht : existsb (Byte.eqb (GetFunction (frame request)))
                           [x01; x02; x03; x04; x05; x06; x0f; x10] = true).
      { apply existsb_exists. eexists. split; [exact Hmem|].
        apply Byte_eqb_refl. }
      congruence. }
  split; [exact Hin|]. split.
  - intro Hout. unfold handle.
    destruct (function (fst (@NewServer F)) (GetFunction (frame request)))
      eqn:E.
    + exfalso. apply Hout, Hin. discriminate.
    + reflexivity.
  - assert (Hb : forall (A : Type) (a : A),
               N.of_nat (List.length (repeat a (N.to_nat 65536))) = 65536%N
               /\ Forall (eq a) (repeat a (N.to_nat 65536))).
    { intros A a. split.
      - rewrite repeat_length. apply N2Nat.id.
      - apply Forall_forall. intros x Hx.
        symmetry. exact (repeat_spec _ _ _ Hx). }
    repeat split; apply Hb.
Qed.

End FunctionTable.

(* ================================================================== *)
(** ** The dispatcher loop *)

Section DispatcherLoop.

Context {F : Type} `{Framer F}.
Variable call : HandlerName -> Server -> F -> list byte * ExceptionRef * Server.

Lemma written_app (a b : list (Event F)) :
  written (a ++ b) = written a ++ written b.
Proof.
  induction a as [|e a IH]; [reflexivity|].
  destruct e; simpl; rewrite IH; reflexivity.
Qed.

Lemma written_frame_hooks (c : Conn) (f : F) (hs : list Hook) :
  written (map (fun h => EvFrameHook h c f) hs) = [].
Proof.
  induction hs; simpl; auto.
Qed.

(** A turn writes once, to the connection of the request. *)
Lemma handler_turn_written (s : Server) (request : Request F) :
  written (snd (handler_turn call s request))
  = [(conn request, Bytes (fst (handle call s request)))].
Proof.
  unfold handler_turn.
  destruct (handle call s request) as [response s1]. cbn [fst snd].
  rewrite !written_app, !written_frame_hooks. reflexivity.
Qed.

Lemma handler_turn_server (s : Server) (request : Request F) :
  fst (handler_turn call s request) = snd (handle call s request).
Proof.
  unfold handler_turn.
  destruct (handle call s request) as [response s1]. reflexivity.
Qed.

(** [handle] leaves the server to the handler, or alone. *)
Lemma handle_server (s : Server) (request : Request F) :
  snd (handle call s request) = s
  \/ exists fn, snd (handle call s request) = snd (call fn s (frame request)).
Proof.
  unfold handle.
  destruct (function s (GetFunction (frame request))) as [fn|].
  - right. exists fn.
    destruct (call fn s (frame request)) as [[data exception] s1].
    destruct (negb (ref_eqb exception (AddrOf Success))); reflexivity.
  - left. reflexivity.
Qed.

(** What the dispatcher has written is a beginning of the answers due. *)
Lemma handler_written_prefix (s : Server) (handoffs : list (Request F)) :
  exists k,
    written (snd (fst (handler call s handoffs)))
    = firstn k (answers call s handoffs).
Proof.
  revert s. induction handoffs as [|request rest IH]; intro s.
  - exists 0%nat. simpl. destruct (closed (requestChan s)); reflexivity.
  - cbn [handler]. destruct (closed (requestChan s)).
    + exists 0%nat. reflexivity.
    + pose proof (handler_turn_written s request) as Hw.
      pose proof (handler_turn_server s request) as Hs.
      cbn [answers].
      destruct (handler_turn call s request) as [s1 ev1].
      destruct (handle call s request) as [response s1'].
      cbn [fst snd] in Hw, Hs. subst s1'.
      destruct (IH s1) as [k Hk].
      destruct (handler call s1 rest) as [[s2 ev2] st].
      exists (S k). cbn [fst snd] in *.
      rewrite written_app, Hw, Hk. reflexivity.
Qed.

(** With handlers that leave the request channel as it is, and the
    channel open, every hand-off gets its answer. *)
Lemma handler_written_all (s : Server) (handoffs : list (Request F)) :
  (forall fn s0 f,
      closed (requestChan (snd (call fn s0 f)))
      = closed (requestChan s0)) ->
  closed (requestChan s) = false ->
  written (snd (fst (handler call s handoffs))) = answers call s handoffs
  /\ fst (fst (handler call s handoffs)) = served call s handoffs
  /\ snd (handler call s handoffs) = Parked.
Proof.
  intros Hkeep. revert s.
  induction handoffs as [|request rest IH]; intros s Hopen.
  - simpl. rewrite Hopen. auto.
  - cbn [handler answers served]. rewrite Hopen.
    pose proof (handler_turn_written s request) as Hw.
    pose proof (handler_turn_server s request) as Hs.
    assert (Hopen1 : closed (requestChan (snd (handle call s request)))
                     = false).
    { destruct (handle_server s request) as [E | [fn E]]; rewrite E.
      - exact Hopen.
      - rewrite Hkeep. exact Hopen. }
    destruct (handler_turn call s request) as [s1 ev1].
    destruct (handle call s request) as [response s1'].
    cbn [fst snd] in Hw, Hs, Hopen1. subst s1'.
    destruct (IH s1 Hopen1) as (Hwr & Hsrv & Hst).
    destruct (handler call s1 rest) as [[s2 ev2] st].
    cbn [fst snd] in *.
    rewrite written_app, Hw, Hwr. auto.
Qed.

Lemma answers_conn (s : Server) (handoffs : list (Request F)) :
  map fst (answers call s handoffs) = map conn handoffs.
Proof.
  revert s. induction handoffs as [|request rest IH]; intro s.
  - reflexivity.
  - cbn [answers]. destruct (handle call s request) as [response s1].
    cbn [map fst]. rewrite IH. reflexivity.
Qed.

(** X6.  The dispatcher answers the requests in the order of their
    hand-offs: what it writes is, request after request, the bytes of the
    response [handle] gives that request on the server as the handlers of
    the requests before it left it, written to the connection the request
    came with.  It never returns.  What it has written is a beginning of
    these answers in any case, and all of them, with the server as the last
    handler left it and the loop parked in the receive, when no handler
    closes the request channel. *)
Theorem handler_answers_in_order (s : Server) (handoffs : list (Request F)) :
  (exists k,
      written (snd (fst (handler call s handoffs)))
      = firstn k (answers call s handoffs))
  /\ snd (handler call s handoffs) <> Returned tt
  /\ ((forall fn s0 f,
         closed (requestChan (snd (call fn s0 f)))
         = closed (requestChan s0)) ->
      closed (requestChan s) = false ->
      written (snd (fst (handler call s handoffs)))
      = answers call s handoffs
      /\ map fst (written (snd (fst (handler call s handoffs))))
         = map conn handoffs
      /\ fst (fst (handler call s handoffs)) = served call s handoffs
      /\ snd (handler call s handoffs) = Parked).
Proof.
  split; [apply handler_written_prefix|]. split.
  - revert s. induction handoffs as [|request rest IH]; intro s.
    + simpl. destruct (closed (requestChan s)); discriminate.
    + cbn [handler]. destruct (closed (requestChan s)); [discriminate|].
      destruct (handler_turn call s request) as [s1 ev1].
      specialize (IH s1).
      destruct (handler call s1 rest) as [[s2 ev2] st].
      exact IH.
  - intros Hkeep Hopen.
    destruct (handler_written_all s handoffs Hkeep Hopen)
      as (Hwr & Hsrv & Hst).
    rewrite Hwr, answers_conn. auto.
Qed.

End DispatcherLoop.

(* ================================================================== *)
(** ** Connection workers and the accept loop *)

Section Workers.

Context {F : Type}.
Variable NewTCPFrame : list byte -> F + error.

(** Events of a worker's loop: a log line or a hand-off. *)
Lemma conn_loop_events (c : Conn) (reads : list ReadResult) :
  Forall (fun e => match e with
                   | EvLog _ _ | EvSend _ => True
                   | _ => False
                   end)
         (fst (conn_loop NewTCPFrame c reads))
  /\ snd (conn_loop NewTCPFrame c reads) <> Panicked.
Proof.
  induction reads as [|r reads [IHev IHst]].
  - simpl. split; [constructor | discriminate].
  - cbn [conn_loop].
    assert (Hturn : Forall (fun e : Event F =>
                              match e with
                              | EvLog _ _ | EvSend _ => True
                              | _ => False
                              end)
                           (fst (conn_turn NewTCPFrame c r))).
    { destruct r as [err | data]; cbn [conn_turn].
      - destruct (negb (is_EOF err)); simpl; repeat constructor.
      - destruct (NewTCPFrame (firstn 512 data)); simpl;
          repeat constructor. }
    destruct (conn_turn NewTCPFrame c r) as [ev go_on]. cbn [fst] in Hturn.
    destruct go_on.
    + destruct (conn_loop NewTCPFrame c reads) as [ev' st]. cbn [fst snd] in *.
      split; [apply Forall_app; auto | exact IHst].
    + cbn [fst snd]. split; [exact Hturn | discriminate].
Qed.

Lemma logs_and_sends_quiet (evs : list (Event F)) :
  Forall (fun e => match e with
                   | EvLog _ _ | EvSend _ => True
                   | _ => False
                   end) evs ->
  written evs = [] /\ conns_closed evs = [] /\ conn_hooks evs = []
  /\ started evs = [].
Proof.
  induction 1 as [|e evs He _ IH]; [repeat split|].
  destruct e; try contradiction; simpl; exact IH.
Qed.

Lemma conn_hooks_app (a b : list (Event F)) :
  conn_hooks (a ++ b) = conn_hooks a ++ conn_hooks b.
Proof.
  induction a as [|e a IH]; [reflexivity|].
  destruct e; simpl; rewrite IH; reflexivity.
Qed.

Lemma conns_closed_app (a b : list (Event F)) :
  conns_closed (a ++ b) = conns_closed a ++ conns_closed b.
Proof.
  induction a as [|e a IH]; [reflexivity|].
  destruct e; simpl; rewrite IH; reflexivity.
Qed.

Lemma started_app (a b : list (Event F)) :
  started (a ++ b) = started a ++ started b.
Proof.
  induction a as [|e a IH]; [reflexivity|].
  destruct e; simpl; rewrite IH; reflexivity.
Qed.

Lemma conn_hooks_map (c : Conn) (hs : list Hook) :
  conn_hooks (map (fun h => @EvConnHook F h c) hs)
  = map (fun h => (h, c)) hs
  /\ conns_closed (map (fun h => @EvConnHook F h c) hs) = []
  /\ written (map (fun h => @EvConnHook F h c) hs) = []
  /\ started (map (fun h => @EvConnHook F h c) hs) = [].
Proof.
  induction hs as [|h hs (IH1 & IH2 & IH3 & IH4)]; simpl; [auto|].
  rewrite IH1. auto.
Qed.

(** X8.  A connection worker never writes to a connection and starts no
    goroutine.  It closes its connection exactly when it returns: then the
    close comes once, after everything else the worker did, and is followed
    by the connection-closed hooks, called in the order of their list with
    that connection; a worker parked in a read has closed nothing and called
    no hook.  It does not panic. *)
Theorem conn_worker_closes_when_it_returns
    (s : Server) (c : Conn) (reads : list ReadResult) :
  written (fst (conn_worker NewTCPFrame s c reads)) = []
  /\ started (fst (conn_worker NewTCPFrame s c reads)) = []
  /\ match snd (conn_worker NewTCPFrame s c reads) with
     | Returned _ =>
         conns_closed (fst (conn_worker NewTCPFrame s c reads)) = [c]
         /\ conn_hooks (fst (conn_worker NewTCPFrame s c reads))
            = map (fun h => (h, c)) (ConnectionClosedEvent s)
         /\ exists before,
             fst (conn_worker NewTCPFrame s c reads)
             = before ++ EvConnClose c
                      :: map (fun h => EvConnHook h c)
                             (ConnectionClosedEvent s)
             /\ conns_closed before = [] /\ conn_hooks before = []
     | Parked =>
         conns_closed (fst (conn_worker NewTCPFrame s c reads)) = []
         /\ conn_hooks (fst (conn_worker NewTCPFrame s c reads)) = []
     | Panicked => False
     end.
Proof.
  unfold conn_worker.
  destruct (conn_loop_events c reads) as [Hev Hst].
  destruct (conn_loop NewTCPFrame c reads) as [ev st]. cbn [fst snd] in *.
  destruct (logs_and_sends_quiet ev Hev) as (Hw & Hc & Hh & Hg).
  destruct (conn_hooks_map c (ConnectionClosedEvent s))
    as (Mh & Mc & Mw & Mg).
  destruct st as [[]| |]; cbn [fst snd].
  - rewrite written_app, started_app, conns_closed_app, conn_hooks_app.
    cbn [written started conns_closed conn_hooks].
    rewrite Hw, Hc, Hh, Hg, Mh, Mc, Mw, Mg.
    repeat split. exists ev. auto.
  - auto.
  - contradiction.
Qed.

Lemma logged_sends (c : Conn) (frames : list F) :
  logged (map (fun fr => EvSend {| conn := c; frame := fr |}) frames) = [].
Proof.
  induction frames; simpl; auto.
Qed.

(** X9.  As long as every read gives a packet that parses, the worker
    stays on its connection: it hands off one request per read, in the order
    of the reads, each with its own connection, closes nothing and waits for
    the next read. *)
Theorem conn_worker_serves_while_reads_parse
    (s : Server) (c : Conn) (reads : list ReadResult) (frames : list F) :
  Forall2 (parses NewTCPFrame) reads frames ->
  conn_worker NewTCPFrame s c reads
  = (map (fun fr => EvSend {| conn := c; frame := fr |}) frames, Parked)
  /\ requests_of (fst (conn_worker NewTCPFrame s c reads))
     = map (Build_Request c) frames.
Proof.
  intro Hgood.
  assert (E : conn_worker NewTCPFrame s c reads
              = (map (fun fr => EvSend {| conn := c; frame := fr |}) frames,
                 Parked)).
  { unfold conn_worker.
    rewrite <- (app_nil_r reads), (conn_loop_parses _ c _ _ _ Hgood).
    simpl. rewrite app_nil_r. reflexivity. }
  split; [exact E|]. rewrite E. apply requests_of_sends.
Qed.

(** X10.  What ends a worker decides what is logged, once the packets
    before it have parsed: nothing for the clean end of the stream, one
    "read error" line with the error for any other failed read, one "bad
    packet error" line with the parse error for a packet that does not
    parse. *)
Theorem conn_worker_logs_the_cause
    (s : Server) (c : Conn) (goods : list ReadResult) (frames : list F)
    (rest : list ReadResult) :
  Forall2 (parses NewTCPFrame) goods frames ->
  logged (fst (conn_worker NewTCPFrame s c
                 (goods ++ ReadFailed io_EOF :: rest))) = []
  /\ (forall msg,
        logged (fst (conn_worker NewTCPFrame s c
                       (goods ++ ReadFailed (ErrorString msg) :: rest)))
        = [(("read error %v" ++ LF)%string, ErrorString msg)])
  /\ (forall data err,
        NewTCPFrame (firstn 512 data) = inr err ->
        logged (fst (conn_worker NewTCPFrame s c
                       (goods ++ ReadBytes data :: rest)))
        = [(("bad packet error %v" ++ LF)%string, err)]).
Proof.
  intro Hgood.
  assert (Hgen : forall r ev,
             conn_turn NewTCPFrame c r = (ev, false) ->
             logged (fst (conn_worker NewTCPFrame s c (goods ++ r :: rest)))
             = logged ev).
  { intros r ev Hturn. unfold conn_worker.
    rewrite (conn_loop_parses _ c _ _ _ Hgood).
    cbn [conn_loop]. rewrite Hturn. cbn [fst snd].
    rewrite !logged_app, logged_sends. cbn [logged app].
    rewrite logged_conn_hooks, app_nil_r. reflexivity. }
  split; [|split].
  - rewrite (Hgen _ []); reflexivity.
  - intro msg.
    rewrite (Hgen _ [EvLog ("read error %v" ++ LF) (ErrorString msg)]);
      reflexivity.
  - intros data err Hparse.
    rewrite (Hgen _ [EvLog ("bad packet error %v" ++ LF) err]).
    + reflexivity.
    + cbn [conn_turn]. rewrite Hparse. reflexivity.
Qed.

(** X11.  The accept loop returns only on a failed accept.  While accepts
    succeed it calls, for each connection in turn, the connection-accepted
    hooks in the order of their list and then starts the worker of that
    connection, and waits for the next; connections that would come after
    the failed accept get no worker. *)
Theorem accept_serves_until_failure
    (s : Server) (listen : Listener) (conns : list Conn)
    (script : list AcceptResult) :
  @accept F s listen (map Accepted conns) = (accepted_events s conns, Parked)
  /\ started (@accepted_events F s conns) = map TaskConn conns
  /\ conn_hooks (@accepted_events F s conns)
     = flat_map (fun c => map (fun h => (h, c)) (ConnectionAcceptedEvent s))
                conns
  /\ (forall err rest,
        started (fst (@accept F s listen
                        (map Accepted conns ++ AcceptFailed err :: rest)))
        = map TaskConn conns)
  /\ (forall result,
        snd (@accept F s listen script) = Returned result ->
        exists err, In (AcceptFailed err) script).
Proof.
  assert (Hst : started (@accepted_events F s conns) = map TaskConn conns).
  { unfold accepted_events. induction conns as [|c conns IH]; [reflexivity|].
    cbn [flat_map map]. rewrite !started_app, IH.
    destruct (conn_hooks_map c (ConnectionAcceptedEvent s))
      as (_ & _ & _ & Mg).
    rewrite Mg. reflexivity. }
  split; [|split; [exact Hst|split; [|split]]].
  - rewrite <- (app_nil_r (map Accepted conns)), accept_accepted.
    simpl. rewrite app_nil_r. reflexivity.
  - clear Hst. unfold accepted_events.
    induction conns as [|c conns IH]; [reflexivity|].
    cbn [flat_map]. rewrite !conn_hooks_app, IH.
    destruct (conn_hooks_map c (ConnectionAcceptedEvent s)) as (Mh & _).
    rewrite Mh. cbn [conn_hooks]. rewrite app_nil_r. reflexivity.
  - intros err rest. rewrite accept_accepted. cbn [fst].
    rewrite started_app, Hst. cbn [accept].
    destruct (Contains (Error err) "use of closed network connection");
      cbn [fst started]; apply app_nil_r.
  - clear Hst. induction script as [|r script IH]; intros result Hret.
    + discriminate.
    + destruct r as [err | c].
      * exists err. now left.
      * cbn [accept] in Hret.
        destruct (accept s listen script) as [ev st]. cbn [snd] in *.
        destruct (IH result Hret) as [err Hin]. exists err. now right.
Qed.

(** X12.  A failed accept ends the loop quietly, with nil, exactly when
    the phrase "use of closed network connection" stands somewhere in the
    text of the error, whatever comes before and after it; in every other
    case the loop returns that error. *)
Theorem accept_quiet_iff_phrase_in_text
    (s : Server) (listen : Listener) (err : error)
    (rest : list AcceptResult) :
  (snd (@accept F s listen (AcceptFailed err :: rest)) = Returned None
   <-> exists p q,
         Error err
         = (p ++ "use of closed network connection" ++ q)%string)
  /\ (snd (@accept F s listen (AcceptFailed err :: rest)) = Returned None
      \/ snd (@accept F s listen (AcceptFailed err :: rest))
         = Returned (Some err)).
Proof.
  cbn [accept].
  rewrite <- Contains_spec.
  destruct (Contains (Error err) "use of closed network connection");
    cbn [snd].
  - split; [split; intros _; reflexivity | left; reflexivity].
  - split; [split; discriminate | right; reflexivity].
Qed.

End Workers.

(* ================================================================== *)
(** ** Shutdown, again *)

Section ShutdownMore.

Context {F : Type}.

Lemma closed_listeners_app (a b : list (Event F)) :
  closed_listeners (a ++ b) = closed_listeners a ++ closed_listeners b.
Proof.
  induction a as [|e a IH]; [reflexivity|].
  destruct e; simpl; rewrite IH; reflexivity.
Qed.

Lemma ports_closed_app (a b : list (Event F)) :
  ports_closed (a ++ b) = ports_closed a ++ ports_closed b.
Proof.
  induction a as [|e a IH]; [reflexivity|].
  destruct e; simpl; rewrite IH; reflexivity.
Qed.

Lemma listener_hooks_app (a b : list (Event F)) :
  listener_hooks (a ++ b) = listener_hooks a ++ listener_hooks b.
Proof.
  induction a as [|e a IH]; [reflexivity|].
  destruct e; simpl; rewrite IH; reflexivity.
Qed.

Lemma listener_hooks_map (l : Listener) (hs : list Hook) :
  listener_hooks (map (fun h => @EvListenerHook F h l) hs)
  = map (fun h => (h, l)) hs
  /\ closed_listeners (map (fun h => @EvListenerHook F h l) hs) = []
  /\ ports_closed (map (fun h => @EvListenerHook F h l) hs) = [].
Proof.
  induction hs as [|h hs (IH1 & IH2 & IH3)]; simpl; [auto|].
  rewrite IH1. auto.
Qed.

(** What closing the listeners shows to each reader. *)
Lemma listeners_closed_read (s : Server) (ls : list Listener) :
  closed_listeners (@listeners_closed F s ls) = ls
  /\ ports_closed (@listeners_closed F s ls) = []
  /\ listener_hooks (@listeners_closed F s ls)
     = flat_map (fun l => map (fun h => (h, l)) (ServerStoppedEvent s)) ls.
Proof.
  unfold listeners_closed.
  induction ls as [|l ls (IH1 & IH2 & IH3)]; [repeat split|].
  cbn [flat_map].
  destruct (listener_hooks_map l (ServerStoppedEvent s)) as (M1 & M2 & M3).
  rewrite closed_listeners_app, ports_closed_app, listener_hooks_app.
  cbn [closed_listeners ports_closed listener_hooks].
  rewrite IH1, IH2, IH3, M1, M2, M3. repeat split.
Qed.

Lemma ports_closed_map (ps : list Port) :
  ports_closed (map (@EvPortClose F) ps) = ps
  /\ closed_listeners (map (@EvPortClose F) ps) = []
  /\ listener_hooks (map (@EvPortClose F) ps) = [].
Proof.
  induction ps as [|p ps (IH1 & IH2 & IH3)]; simpl; [auto|].
  rewrite IH1. auto.
Qed.

(** What the whole sequence of [Close] shows to each reader. *)
Lemma Close_sequence_read (s : Server) :
  closed_listeners (@Close_sequence F s) = listeners s
  /\ ports_closed (@Close_sequence F s) = ports s
  /\ listener_hooks (@Close_sequence F s)
     = flat_map (fun l => map (fun h => (h, l)) (ServerStoppedEvent s))
                (listeners s).
Proof.
  unfold Close_sequence.
  destruct (listeners_closed_read s (listeners s)) as (L1 & L2 & L3).
  destruct (ports_closed_map (ports s)) as (P1 & P2 & P3).
  rewrite !closed_listeners_app, !ports_closed_app, !listener_hooks_app.
  cbn [closed_listeners ports_closed listener_hooks].
  rewrite L1, L2, L3, P1, P2, P3.
  cbn [app]. rewrite !app_nil_r. repeat split.
Qed.

(** X13.  Starting and stopping compose.  What a [Close] that returns
    has done is this, in this order: every listener the server had recorded
    and, last, the one a successful [ListenTCP] added, each closed and then
    followed by the server-stopped hooks called with it in the order of their
    list; the stop signal; the wait; the recorded ports closed.  After a
    [ListenTCP] that failed to bind there is no listener more to close. *)
Theorem ListenTCP_then_Close
    (s s1 : Server) (addressPort : string) (listening : Listener + error)
    (schedule : list Actor) :
  s1 = fst (fst (@ListenTCP F s addressPort listening)) ->
  point (Close_run schedule (@Close_begin F s1)) = CloseReturned ->
  done (Close_run schedule (@Close_begin F s1))
  = flat_map (fun l =>
                EvListenerClose l
                :: map (fun h => EvListenerHook h l) (ServerStoppedEvent s))
             (listeners s ++ match listening with
                             | inl listen => [listen]
                             | inr _ => []
                             end)
    ++ [EvChanClose ThePortsCloseChan]
    ++ [EvWait]
    ++ map EvPortClose (ports s)
  /\ closed_listeners (done (Close_run schedule (@Close_begin F s1)))
     = listeners s ++ match listening with
                      | inl listen => [listen]
                      | inr _ => []
                      end
  /\ listener_hooks (done (Close_run schedule (@Close_begin F s1)))
     = flat_map (fun l => map (fun h => (h, l)) (ServerStoppedEvent s))
                (listeners s ++ match listening with
                                | inl listen => [listen]
                                | inr _ => []
                                end)
  /\ ports_closed (done (Close_run schedule (@Close_begin F s1))) = ports s.
Proof.
  intros Hs1 Hret.
  pose proof (@Close_inv_run F s1 schedule _ (Close_inv_begin s1)) as Hinv.
  destruct Hinv as [_ Hp]. rewrite Hret in Hp. destruct Hp as (Hdone & _).
  rewrite Hdone.
  destruct (Close_sequence_read s1) as (R1 & R2 & R3).
  rewrite R1, R2, R3. subst s1.
  destruct listening as [listen | err]; cbn [ListenTCP fst snd];
    rewrite ?app_nil_r; repeat split.
Qed.

(** With the stop signal given, [Close] stays before the wait. *)
Lemma Close_run_signal_given (schedule : list Actor) (st : @CloseState F) :
  closed (portsCloseChan (server st)) = true ->
  (point st = AtSignal \/ point st = ClosePanicked
   \/ exists rest, point st = AtListeners rest) ->
  point (Close_run schedule st) = AtSignal
  \/ point (Close_run schedule st) = ClosePanicked
  \/ exists rest, point (Close_run schedule st) = AtListeners rest.
Proof.
  revert st. induction schedule as [|a schedule IH]; intros st Hcl Hpt.
  - exact Hpt.
  - cbn [Close_run]. destruct (move a st) as [st'|] eqn:Em; [|auto].
    destruct a; cbn [move] in Em.
    + unfold Close_step in Em.
      destruct Hpt as [Hpt | [Hpt | [rest Hpt]]]; rewrite Hpt in Em.
      * rewrite Hcl in Em. inversion Em; subst st'.
        apply IH; cbn [server point]; auto.
      * discriminate.
      * destruct rest as [|l rest]; inversion Em; subst st';
          apply IH; cbn [server point]; eauto.
    + unfold worker_exit in Em.
      destruct (N.eqb (portsWG (server st)) 0); [discriminate|].
      inversion Em; subst st'.
      apply IH; cbn [server point]; auto.
Qed.

(** X14.  [Close] cannot be called twice.  On the server a returned
    [Close] leaves, the stop signal is closed, and a second call closes the
    recorded listeners once more, each followed by the server-stopped hooks
    called with it, and then panics on the stop signal: what it has done at
    the panic is exactly that, and under any schedule what it has done is a
    beginning of that; it does not return and closes no port. *)
Theorem Close_twice_panics
    (s s1 : Server) (schedule1 schedule2 : list Actor) :
  point (Close_run schedule1 (@Close_begin F s)) = CloseReturned ->
  s1 = server (Close_run schedule1 (@Close_begin F s)) ->
  closed (portsCloseChan s1) = true
  /\ point (Close_run schedule2 (@Close_begin F s1)) <> CloseReturned
  /\ ports_closed (done (Close_run schedule2 (@Close_begin F s1))) = []
  /\ point (Close_run (repeat TheClose (List.length (listeners s))
                       ++ [TheClose; TheClose])
                      (@Close_begin F s1)) = ClosePanicked
  /\ closed_listeners
       (done (Close_run (repeat TheClose (List.length (listeners s))
                         ++ [TheClose; TheClose])
                        (@Close_begin F s1)))
     = listeners s
  /\ done (Close_run (repeat TheClose (List.length (listeners s))
                      ++ [TheClose; TheClose])
                     (@Close_begin F s1))
     = flat_map (fun l =>
                   EvListenerClose l
                   :: map (fun h => EvListenerHook h l)
                          (ServerStoppedEvent s))
                (listeners s)
  /\ (exists rest,
        flat_map (fun l =>
                    EvListenerClose l
                    :: map (fun h => EvListenerHook h l)
                           (ServerStoppedEvent s))
                 (listeners s)
        = done (Close_run schedule2 (@Close_begin F s1)) ++ rest).
Proof.
  intros Hret Hs1.
  pose proof (@Close_inv_run F s schedule1 _ (Close_inv_begin s)) as Hinv.
  destruct Hinv as [(ch & wg & Hsrv & _) Hp].
  rewrite Hret in Hp. destruct Hp as (_ & _ & Hcl).
  rewrite <- Hs1 in Hsrv, Hcl.
  assert (Hls : listeners s1 = listeners s) by (rewrite Hsrv; reflexivity).
  assert (Hlc : forall ls,
             @listeners_closed F s1 ls
             = flat_map (fun l =>
                           EvListenerClose l
                           :: map (fun h => EvListenerHook h l)
                                  (ServerStoppedEvent s))
                        ls).
  { intro ls. rewrite Hsrv. reflexivity. }
  split; [exact Hcl|].
  pose proof (Close_run_signal_given schedule2 (Close_begin s1) Hcl
                (or_intror (or_intror (ex_intro _ _ eq_refl)))) as Hpt.
  pose proof (@Close_inv_run F s1 schedule2 _ (Close_inv_begin s1))
    as [_ Hp2].
  split; [|split; [|split; [|split; [|split]]]].
  - destruct Hpt as [E | [E | [rest E]]]; rewrite E; discriminate.
  - destruct Hpt as [E | [E | [rest E]]]; rewrite E in Hp2.
    + rewrite Hp2. apply listeners_closed_read.
    + rewrite Hp2. apply listeners_closed_read.
    + destruct Hp2 as (before & _ & Hd). rewrite Hd.
      apply listeners_closed_read.
  - rewrite <- Hls. unfold Close_begin.
    rewrite Close_run_app, Close_run_listeners.
    cbn [Close_run move Close_step point server done]. rewrite Hcl.
    reflexivity.
  - rewrite <- Hls. unfold Close_begin.
    rewrite Close_run_app, Close_run_listeners.
    cbn [Close_run move Close_step point server done]. rewrite Hcl.
    cbn [Close_run move Close_step point server done app].
    apply listeners_closed_read.
  - rewrite <- Hls, <- Hlc. unfold Close_begin.
    rewrite Close_run_app, Close_run_listeners.
    cbn [Close_run move Close_step point server done]. rewrite Hcl.
    reflexivity.
  - rewrite <- Hls, <- Hlc.
    destruct Hpt as [E | [E | [rest E]]]; rewrite E in Hp2.
    + rewrite Hp2. exists []. now rewrite app_nil_r.
    + rewrite Hp2. exists []. now rewrite app_nil_r.
    + destruct Hp2 as (before & Hl & Hd). rewrite Hd, Hl.
      exists (listeners_closed s1 rest). apply listeners_closed_app.
Qed.

Lemma Close_step_keeps_counter (st st' : @CloseState F) :
  Close_step st = Some st' -> portsWG (server st') = portsWG (server st).
Proof.
  unfold Close_step. intro E.
  destruct (point st) as [[|l rest]| | |[|p rest]| |];
    try (inversion E; subst st'; reflexivity); try discriminate.
  - destruct (closed (portsCloseChan (server st)));
      inversion E; subst st'; reflexivity.
  - destruct (N.eqb (portsWG (server st)) 0); [|discriminate].
    inversion E; subst st'; reflexivity.
Qed.

Lemma Close_alone_keeps_counter (n : nat) (st : @CloseState F) :
  portsWG (server (Close_run (repeat TheClose n) st)) = portsWG (server st).
Proof.
  revert st. induction n as [|n IH]; intro st; [reflexivity|].
  cbn [repeat Close_run move].
  destruct (Close_step st) as [st'|] eqn:E.
  - rewrite IH. apply Close_step_keeps_counter, E.
  - apply IH.
Qed.

(** X15.  No port is closed while a port worker is still running: at
    every point of every run of [Close] where the counter of the wait group
    is not zero, no port has been closed and the call has not returned.  So
    a [Close] whose port workers never exit does not return, however many
    steps it is given. *)
Theorem Close_waits_for_port_workers
    (s : Server) (schedule : list Actor) :
  (portsWG (server (Close_run schedule (@Close_begin F s))) <> 0%N ->
   ports_closed (done (Close_run schedule (@Close_begin F s))) = []
   /\ point (Close_run schedule (@Close_begin F s)) <> CloseReturned)
  /\ (portsWG s <> 0%N ->
      forall n,
        point (Close_run (repeat TheClose n) (@Close_begin F s))
        <> CloseReturned
        /\ ports_closed
             (done (Close_run (repeat TheClose n) (@Close_begin F s))) = []).
Proof.
  assert (Hgen : forall sched,
             portsWG (server (Close_run sched (@Close_begin F s))) <> 0%N ->
             ports_closed (done (Close_run sched (@Close_begin F s))) = []
             /\ point (Close_run sched (@Close_begin F s)) <> CloseReturned).
  { intros sched Hwg.
    pose proof (@Close_inv_run F s sched _ (Close_inv_begin s)) as [_ Hp].
    destruct (listeners_closed_read s (listeners s)) as (_ & L2 & _).
    destruct (point (Close_run sched (Close_begin s))) as [rest| | |rest| |].
    - destruct Hp as (before & _ & Hd). rewrite Hd.
      split; [apply listeners_closed_read | discriminate].
    - rewrite Hp. split; [exact L2 | discriminate].
    - destruct Hp as [Hd _]. rewrite Hd, ports_closed_app, L2.
      split; [reflexivity | discriminate].
    - destruct Hp as (_ & _ & _ & Hz & _). contradiction.
    - destruct Hp as (_ & Hz & _). contradiction.
    - rewrite Hp. split; [exact L2 | discriminate]. }
  split; [apply Hgen|].
  intros Hwg n.
  destruct (Hgen (repeat TheClose n)) as [Hports Hpt].
  - rewrite Close_alone_keeps_counter. exact Hwg.
  - split; assumption.
Qed.

End ShutdownMore.

(* ================================================================== *)
(** ** Who writes, who hands off, who starts what *)

Section OneDispatcher.

Context {F : Type} `{Framer F}.
Variable call : HandlerName -> Server -> F -> list byte * ExceptionRef * Server.

Lemma inert_quiet (evs : list (Event F)) :
  Forall inert evs ->
  written evs = [] /\ requests_of evs = [] /\ started evs = [].
Proof.
  induction 1 as [|e evs He _ IH]; [repeat split|].
  destruct e; try contradiction; simpl; exact IH.
Qed.

Lemma inert_listener_hooks (l : Listener) (hs : list Hook) :
  Forall inert (map (fun h => @EvListenerHook F h l) hs).
Proof.
  apply Forall_forall. intros e He. apply in_map_iff in He.
  destruct He as (h & <- & _). exact I.
Qed.

Lemma inert_conn_hooks (c : Conn) (hs : list Hook) :
  Forall inert (map (fun h => @EvConnHook F h c) hs).
Proof.
  apply Forall_forall. intros e He. apply in_map_iff in He.
  destruct He as (h & <- & _). exact I.
Qed.

Lemma inert_frame_hooks (c : Conn) (f : F) (hs : list Hook) :
  requests_of (map (fun h => EvFrameHook h c f) hs) = []
  /\ started (map (fun h => EvFrameHook h c f) hs) = [].
Proof.
  induction hs; simpl; auto.
Qed.

Lemma inert_Close_sequence (s : Server) : Forall inert (@Close_sequence F s).
Proof.
  unfold Close_sequence, listeners_closed.
  apply Forall_app; split; [|apply Forall_app; split;
                             [|apply Forall_app; split]].
  - apply Forall_forall. intros e He. apply in_flat_map in He.
    destruct He as (l & _ & [<- | He]); [exact I|].
    apply in_map_iff in He. destruct He as (h & <- & _). exact I.
  - repeat constructor.
  - repeat constructor.
  - apply Forall_forall. intros e He. apply in_map_iff in He.
    destruct He as (p & <- & _). exact I.
Qed.

Lemma accept_quiet (s : Server) (listen : Listener)
    (script : list AcceptResult) :
  written (fst (@accept F s listen script)) = []
  /\ requests_of (fst (@accept F s listen script)) = []
  /\ ~ In TaskHandler (started (fst (@accept F s listen script))).
Proof.
  induction script as [|r script (IHw & IHr & IHs)].
  - simpl. auto.
  - destruct r as [err | c]; cbn [accept].
    + destruct (Contains (Error err) "use of closed network connection");
        simpl; auto.
    + destruct (accept s listen script) as [ev st]. cbn [fst] in *.
      destruct (inert_quiet _ (inert_conn_hooks c (ConnectionAcceptedEvent s)))
        as (Qw & Qr & Qs).
      rewrite written_app, requests_of_app, started_app, Qw, Qr, Qs.
      cbn [app written requests_of started].
      repeat split; auto.
      intros [E | Hin]; [discriminate | auto].
Qed.

Lemma handler_quiet (s : Server) (handoffs : list (Request F)) :
  requests_of (snd (fst (handler call s handoffs))) = []
  /\ started (snd (fst (handler call s handoffs))) = [].
Proof.
  revert s. induction handoffs as [|request rest IH]; intro s.
  - simpl. destruct (closed (requestChan s)); auto.
  - cbn [handler]. destruct (closed (requestChan s)); [auto|].
    assert (Hturn : requests_of (snd (handler_turn call s request)) = []
                    /\ started (snd (handler_turn call s request)) = []).
    { unfold handler_turn.
      destruct (handle call s request) as [response s1]. cbn [snd].
      rewrite !requests_of_app, !started_app.
      destruct (inert_frame_hooks (conn request) (frame request)
                  (RequestReceivedEvent s)) as [A1 A2].
      destruct (inert_frame_hooks (conn request) response
                  (ResponseSentEvent s1)) as [B1 B2].
      rewrite A1, A2, B1, B2. auto. }
    destruct (handler_turn call s request) as [s1 ev1].
    specialize (IH s1).
    destruct (handler call s1 rest) as [[s2 ev2] st]. cbn [fst snd] in *.
    rewrite requests_of_app, started_app.
    destruct Hturn as [-> ->], IH as [-> ->]. auto.
Qed.

(** X16.  There is one dispatcher, and it alone answers.  [NewServer]
    starts the dispatcher, once; neither the accept loop nor [ListenTCP]
    starts another (they start connection workers and the accept loop), and
    [Close] and the dispatcher start nothing.  None of the accept loop,
    [ListenTCP] and [Close] writes to a connection or hands a request to the
    dispatcher, and the dispatcher hands none to itself. *)
Theorem one_dispatcher_answers
    (s : Server) (listen : Listener) (script : list AcceptResult)
    (addressPort : string) (listening : Listener + error)
    (schedule : list Actor) (handoffs : list (Request F)) :
  started (snd (@NewServer F)) = [TaskHandler]
  /\ (written (fst (@accept F s listen script)) = []
      /\ requests_of (fst (@accept F s listen script)) = []
      /\ ~ In TaskHandler (started (fst (@accept F s listen script))))
  /\ (written (snd (fst (@ListenTCP F s addressPort listening))) = []
      /\ requests_of (snd (fst (@ListenTCP F s addressPort listening))) = []
      /\ ~ In TaskHandler
           (started (snd (fst (@ListenTCP F s addressPort listening)))))
  /\ (written (done (Close_run schedule (@Close_begin F s))) = []
      /\ requests_of (done (Close_run schedule (@Close_begin F s))) = []
      /\ started (done (Close_run schedule (@Close_begin F s))) = [])
  /\ (requests_of (snd (fst (handler call s handoffs))) = []
      /\ started (snd (fst (handler call s handoffs))) = []).
Proof.
  split; [reflexivity|].
  split; [apply accept_quiet|].
  split; [|split; [|apply handler_quiet]].
  - destruct listening as [l | err]; cbn [ListenTCP fst snd].
    + destruct (inert_quiet _ (inert_listener_hooks l (ServerStartedEvent s)))
        as (Qw & Qr & Qs).
      rewrite written_app, requests_of_app, started_app, Qw, Qr, Qs.
      simpl. repeat split. intros [E | []]. discriminate.
    + simpl. repeat split. intros [].
  - pose proof (@Close_inv_run F s schedule _ (Close_inv_begin s)) as Hinv.
    destruct (Close_inv_prefix _ _ Hinv) as [rest Hpre].
    pose proof (inert_Close_sequence s) as Hall.
    rewrite Hpre in Hall. apply Forall_app in Hall.
    apply inert_quiet, Hall.
Qed.

End OneDispatcher.

(* ================================================================== *)
(** ** From the packet to the response *)

Section EndToEnd.

Context {F : Type} `{Framer F}.
Variable call : HandlerName -> Server -> F -> list byte * ExceptionRef * Server.
Variable NewTCPFrame : list byte -> F + error.

(** The requests a worker hands off are the frames of the packets it read
    and parsed, whether it is still reading or was stopped by a failure. *)
Lemma conn_worker_requests
    (s : Server) (c : Conn) (goods : list ReadResult) (frames : list F)
    (tail : list ReadResult) :
  Forall2 (parses NewTCPFrame) goods frames ->
  (tail = [] \/ exists r rest, tail = r :: rest /\ fails NewTCPFrame r) ->
  requests_of (fst (conn_worker NewTCPFrame s c (goods ++ tail)))
  = map (Build_Request c) frames.
Proof.
  intros Hgood Htail. unfold conn_worker.
  rewrite (conn_loop_parses _ c _ _ _ Hgood).
  destruct Htail as [-> | (r & rest & -> & Hfail)].
  - simpl. rewrite app_nil_r. apply requests_of_sends.
  - cbn [conn_loop].
    destruct (conn_turn_fails _ c r Hfail) as (Hstop & Hreq & _).
    destruct (conn_turn NewTCPFrame c r) as [ev go_on].
    cbn [fst snd] in Hstop, Hreq. subst go_on. cbn [fst snd].
    rewrite !requests_of_app, requests_of_sends, Hreq.
    cbn [requests_of]. rewrite requests_of_hooks, !app_nil_r.
    reflexivity.
Qed.

Lemma conn_of_requests (c : Conn) (frames : list F) :
  map conn (map (Build_Request c) frames) = repeat c (List.length frames).
Proof.
  induction frames as [|fr frames IH]; [reflexivity|].
  simpl. rewrite IH. reflexivity.
Qed.

(** X17.  From the packet to the response.  Let a connection worker read
    packets that parse into the frames [frames], and then be still reading
    or be stopped by a failed read or a packet that does not parse.  The
    requests it hands off are these frames, in order, each with the
    worker's connection; and the dispatcher, given them, with the request
    channel open and no handler closing it, writes for each frame in turn
    the bytes of the response [handle] gives it, all to that connection:
    one response for each packet read and parsed, none for the failure. *)
Theorem responses_go_to_the_connection_of_the_packet
    (s s0 : Server) (c : Conn) (goods : list ReadResult) (frames : list F)
    (tail : list ReadResult) :
  Forall2 (parses NewTCPFrame) goods frames ->
  (tail = [] \/ exists r rest, tail = r :: rest /\ fails NewTCPFrame r) ->
  (forall fn s1 f,
      closed (requestChan (snd (call fn s1 f)))
      = closed (requestChan s1)) ->
  closed (requestChan s0) = false ->
  requests_of (fst (conn_worker NewTCPFrame s c (goods ++ tail)))
  = map (Build_Request c) frames
  /\ written
       (snd (fst (handler call s0
                    (requests_of
                       (fst (conn_worker NewTCPFrame s c (goods ++ tail)))))))
     = answers call s0 (map (Build_Request c) frames)
  /\ map fst
       (written
          (snd (fst (handler call s0
                       (requests_of
                          (fst (conn_worker NewTCPFrame s c
                                            (goods ++ tail))))))))
     = repeat c (List.length frames).
Proof.
  intros Hgood Htail Hkeep Hopen.
  pose proof (conn_worker_requests s c goods frames tail Hgood Htail) as Hreq.
  rewrite Hreq.
  destruct (handler_written_all call s0 (map (Build_Request c) frames)
              Hkeep Hopen) as (Hwr & _ & _).
  rewrite Hwr, answers_conn, conn_of_requests. auto.
Qed.

(** X18.  A nil exception is not success.  A handler that returns its
    payload with a nil exception is handled as a failure: after the payload
    is set on the response, [SetException] is called on it with nil. *)
Theorem handle_nil_exception_is_failure
    (s : Server) (request : Request F) (fn : HandlerName)
    (data : list byte) (s' : Server) :
  function s (GetFunction (frame request)) = Some fn ->
  call fn s (frame request) = (data, NilRef, s') ->
  handle call s request
  = (SetException (SetData (Copy (frame request)) data) NilRef, s').
Proof.
  intros Hfn Hcall.
  rewrite (handle_registered _ _ _ _ Hfn), Hcall. reflexivity.
Qed.

End EndToEnd.

(* ================================================================== *)
(** ** The further properties at work on the sample server *)

(** The sample handlers leave the request channel alone. *)
Lemma Sample_call_keeps_requestChan
    (fn : HandlerName) (s0 : Server) (f : t) :
  closed (requestChan (snd (Sample.call fn s0 f))) = closed (requestChan s0).
Proof.
  unfold Sample.call.
  destruct fn as [| | | | | | | |id]; try reflexivity.
  destruct id as [|[[p|p|]|[p|p|]|]]; reflexivity.
Defined.

(** Function code 0x41, served by the echo handler, is given to the
    handler that refuses. *)
Lemma RegisterFunctionHandler_then_dispatch_sample :
  function Sample.server x41 = Some (UserHandler 0)
  /\ function (RegisterFunctionHandler Sample.server x41
                                       (Some (UserHandler 1))) x41
     = Some (UserHandler 1).
Proof.
  split; [reflexivity|].
  exact (proj1 (@RegisterFunctionHandler_then_dispatch t framer Sample.call
                  Sample.server x41 (UserHandler 1)
                  (Sample.request x41 [x0a]) ltac:(reflexivity))).
Defined.

(** A registration for 0x50 leaves the entry of 0x41 alone. *)
Lemma RegisterFunctionHandler_writes_one_entry_sample :
  function (RegisterFunctionHandler Sample.server x50 (Some (UserHandler 1)))
           (GetFunction (frame (Sample.request x41 [x0a])))
  = function Sample.server (GetFunction (frame (Sample.request x41 [x0a]))).
Proof.
  exact (proj1 (@RegisterFunctionHandler_writes_one_entry t framer Sample.call
                  Sample.server x50 (Some (UserHandler 1))
                  (Sample.request x41 [x0a]) ltac:(discriminate))).
Defined.

(** Function code 0x41 taken out of service. *)
Lemma RegisterFunctionHandler_nil_unregisters_sample :
  handle Sample.call (RegisterFunctionHandler Sample.server x41 None)
         (Sample.request x41 [x0a])
  = (SetException (Copy (frame (Sample.request x41 [x0a])))
                  (AddrOf IllegalFunction),
     RegisterFunctionHandler Sample.server x41 None).
Proof.
  exact (proj2 (@RegisterFunctionHandler_nil_unregisters t framer Sample.call
                  Sample.server x41 (Sample.request x41 [x0a])
                  ltac:(reflexivity))).
Defined.

(** Registrations for 0x50 and 0x51, in either order. *)
Lemma RegisterFunctionHandler_last_wins_sample :
  function (RegisterFunctionHandler
              (RegisterFunctionHandler Sample.server x50
                                       (Some (UserHandler 0)))
              x51 (Some (UserHandler 1))) x50
  = function (RegisterFunctionHandler
                (RegisterFunctionHandler Sample.server x51
                                         (Some (UserHandler 1)))
                x50 (Some (UserHandler 0))) x50.
Proof.
  exact (proj2 (RegisterFunctionHandler_last_wins Sample.server x50 x51
                  (Some (UserHandler 0)) (Some (UserHandler 1)) x50)
               ltac:(discriminate)).
Defined.

(** Function code 7 on a new server. *)
Lemma NewServer_function_table_and_banks_sample :
  handle Sample.call (fst (@NewServer t)) (Sample.request x07 [x0a])
  = (SetException (Copy (frame (Sample.request x07 [x0a])))
                  (AddrOf IllegalFunction),
     fst (@NewServer t)).
Proof.
  exact (proj1 (proj2 (@NewServer_function_table_and_banks t framer
                         Sample.call (Sample.request x07 [x0a])))
               ltac:(simpl; intuition discriminate)).
Defined.

(** Two requests handed off, the first from connection 6 for the handler
    that refuses, the second from connection 5 for the echo handler. *)
Lemma handler_answers_in_order_sample :
  closed (requestChan Sample.server) = false
  /\ written
       (snd (fst (handler Sample.call Sample.server
                    [{| conn := 6%N;
                        frame := {| header := [x00; x02]; code := x42;
                                    body := Payload [x0b] |} |};
                     Sample.request x41 [x0a]])))
     = [(6%N, [x00; x02; x42]); (5%N, [x00; x01; x41; x0a])].
Proof.
  split; [reflexivity|].
  exact (proj1 (proj2 (proj2 (@handler_answers_in_order t framer Sample.call
                         Sample.server
                         [{| conn := 6%N;
                             frame := {| header := [x00; x02]; code := x42;
                                         body := Payload [x0b] |} |};
                          Sample.request x41 [x0a]]))
               Sample_call_keeps_requestChan ltac:(reflexivity))).
Defined.

(** Two packets that parse. *)
Lemma conn_worker_serves_while_reads_parse_sample :
  conn_worker parse Sample.server 5%N
              [ReadBytes [x41; x01]; ReadBytes [x42]]
  = ([EvSend {| conn := 5%N;
                frame := {| header := []; code := x41;
                            body := Payload [x01] |} |};
      EvSend {| conn := 5%N;
                frame := {| header := []; code := x42;
                            body := Payload [] |} |}],
     Parked).
Proof.
  assert (Hgood : Forall2 (parses parse)
                    [ReadBytes [x41; x01]; ReadBytes [x42]]
                    [{| header := []; code := x41; body := Payload [x01] |};
                     {| header := []; code := x42; body := Payload [] |}]).
  { constructor; [|constructor; [|constructor]].
    - exists [x41; x01]. split; reflexivity.
    - exists [x42]. split; reflexivity. }
  exact (proj1 (@conn_worker_serves_while_reads_parse t parse Sample.server
                  5%N _ _ Hgood)).
Defined.

(** One packet that parses, then the clean end of the stream. *)
Lemma conn_worker_logs_the_cause_sample :
  logged (fst (conn_worker parse Sample.server 5%N
                 ([ReadBytes [x41; x01]] ++ ReadFailed io_EOF :: [])))
  = [].
Proof.
  assert (Hgood : Forall2 (parses parse) [ReadBytes [x41; x01]]
                    [{| header := []; code := x41; body := Payload [x01] |}]).
  { constructor; [|constructor]. exists [x41; x01]. split; reflexivity. }
  exact (proj1 (@conn_worker_logs_the_cause t parse Sample.server 5%N
                  _ _ [] Hgood)).
Defined.

(** An accept loop that has returned met a failed accept. *)
Lemma accept_serves_until_failure_sample :
  snd (@accept t Sample.server 7%N
         [Accepted 5%N; AcceptFailed (ErrorString "too many open files")])
  = Returned (Some (ErrorString "too many open files"))
  /\ exists err,
       In (AcceptFailed err)
          [Accepted 5%N; AcceptFailed (ErrorString "too many open files")].
Proof.
  split; [reflexivity|].
  exact (proj2 (proj2 (proj2 (proj2
           (@accept_serves_until_failure t Sample.server 7%N []
              [Accepted 5%N;
               AcceptFailed (ErrorString "too many open files")]))))
           (Some (ErrorString "too many open files")) ltac:(reflexivity)).
Defined.

(** Listener 9 is started on the sample server, and the server closed. *)
Lemma ListenTCP_then_Close_sample :
  done (Close_run
          (Close_schedule
             (fst (fst (@ListenTCP t Sample.server "0.0.0.0:502"
                          (inl 9%N)))))
          (@Close_begin t
             (fst (fst (@ListenTCP t Sample.server "0.0.0.0:502"
                          (inl 9%N))))))
  = [EvListenerClose 7%N; EvListenerHook 16%N 7%N;
     EvListenerClose 8%N; EvListenerHook 16%N 8%N;
     EvListenerClose 9%N; EvListenerHook 16%N 9%N;
     EvChanClose ThePortsCloseChan; EvWait; EvPortClose 3%N].
Proof.
  exact (proj1 (@ListenTCP_then_Close t Sample.server _ "0.0.0.0:502"
                  (inl 9%N)
                  (Close_schedule
                     (fst (fst (@ListenTCP t Sample.server "0.0.0.0:502"
                                  (inl 9%N)))))
                  ltac:(reflexivity) ltac:(reflexivity))).
Defined.

(** [Close] called again on the sample server. *)
Lemma Close_twice_panics_sample :
  point (Close_run (Close_schedule Sample.server)
                   (@Close_begin t Sample.server)) = CloseReturned
  /\ point (Close_run
              (repeat TheClose (List.length (listeners Sample.server))
               ++ [TheClose; TheClose])
              (@Close_begin t
                 (server (Close_run (Close_schedule Sample.server)
                                    (@Close_begin t Sample.server)))))
     = ClosePanicked
  /\ done (Close_run
             (repeat TheClose (List.length (listeners Sample.server))
              ++ [TheClose; TheClose])
             (@Close_begin t
                (server (Close_run (Close_schedule Sample.server)
                                   (@Close_begin t Sample.server)))))
     = [EvListenerClose 7%N; EvListenerHook 16%N 7%N;
        EvListenerClose 8%N; EvListenerHook 16%N 8%N].
Proof.
  split; [reflexivity|].
  destruct (@Close_twice_panics t Sample.server _
              (Close_schedule Sample.server) []
              ltac:(reflexivity) ltac:(reflexivity))
    as (_ & _ & _ & Hpanic & _ & Hdone & _).
  split; [exact Hpanic | exact Hdone].
Defined.

(** [Close] on the sample server while its port worker stays. *)
Lemma Close_waits_for_port_workers_sample :
  portsWG Sample.server <> 0%N
  /\ point (Close_run (repeat TheClose 10) (@Close_begin t Sample.server))
     <> CloseReturned.
Proof.
  split; [discriminate|].
  exact (proj1 (proj2 (@Close_waits_for_port_workers t Sample.server [])
                      ltac:(discriminate) 10%nat)).
Defined.

(** Two packets on connection 5, one for the echo handler and one for
    the handler that refuses, then the end of the stream. *)
Lemma responses_go_to_the_connection_of_the_packet_sample :
  written
    (snd (fst (handler Sample.call Sample.server
                 (requests_of
                    (fst (conn_worker parse Sample.server 5%N
                            ([ReadBytes [x41; x01]; ReadBytes [x42]]
                             ++ [ReadFailed io_EOF])))))))
  = [(5%N, [x41; x01]); (5%N, [x42])].
Proof.
  assert (Hgood : Forall2 (parses parse)
                    [ReadBytes [x41; x01]; ReadBytes [x42]]
                    [{| header := []; code := x41; body := Payload [x01] |};
                     {| header := []; code := x42; body := Payload [] |}]).
  { constructor; [|constructor; [|constructor]].
    - exists [x41; x01]. split; reflexivity.
    - exists [x42]. split; reflexivity. }
  assert (Htail : [ReadFailed io_EOF] = []
                  \/ exists r rest,
                       [ReadFailed io_EOF] = r :: rest /\ fails parse r).
  { right. exists (ReadFailed io_EOF), []. split; [reflexivity|].
    left. exists io_EOF. reflexivity. }
  exact (proj1 (proj2 (@responses_go_to_the_connection_of_the_packet t framer
                         Sample.call parse Sample.server Sample.server 5%N
                         _ _ _ Hgood Htail Sample_call_keeps_requestChan
                         ltac:(reflexivity)))).
Defined.

(** The handler that returns nil, on function code 0x41. *)
Lemma handle_nil_exception_is_failure_sample :
  NilSample.call (UserHandler 0) Sample.server
                 (frame (Sample.request x41 [x0a]))
  = ([x0a], NilRef, Sample.server)
  /\ handle NilSample.call Sample.server (Sample.request x41 [x0a])
     = (SetException
          (SetData (Copy (frame (Sample.request x41 [x0a]))) [x0a]) NilRef,
        Sample.server).
Proof.
  split; [reflexivity|].
  exact (@handle_nil_exception_is_failure t framer
           NilSample.call Sample.server (Sample.request x41 [x0a])
           (UserHandler 0) [x0a] Sample.server
           ltac:(reflexivity) ltac:(reflexivity)).
Defined.
